(** * Relay hub and producer page of the screen-sharing relay

    A shallow embedding of the signalling gateway
    (class [SignalingGateway], backend) and of the candidate queue of the
    producer page (hook [useScreenShare], frontend), with the properties of
    the relay session manager that the specification states about them.

    The gateway is a single-threaded, event-driven object.  Its shared fields
    are the record [Hub]; the objects of the media runtime it holds references
    to (peer connections, tracks) live in explicit stores of the same record,
    so that aliasing (a connection closed through one reference and observed
    through another) is visible.  Pending timers and promise continuations are
    data, and an operation of the hub is one atomic, non-suspending segment of
    a handler: an inbound message, a timer firing, or an event of the media
    runtime. *)

From stdpp Require Import gmap strings list fin_maps.

Set Default Proof Using "Type".

(** ** Payloads shared by both sides *)

Abbreviation ClientId := string.
Abbreviation PcRef := nat.
Abbreviation TrackRef := nat.
Abbreviation Candidate := string.

(** A session description is opaque to the hub.  One received from a client is
    the payload as sent; one produced by [createOffer] or [createAnswer] of a
    hub connection is identified by that connection. *)
Inductive SDP :=
  | ClientSDP (payload : string)
  | HubOffer (pc : PcRef)
  | HubAnswer (pc : PcRef).

#[global] Instance SDP_eq_dec : EqDecision SDP.
Proof. solve_decision. Defined.

Module SignalingGateway.

(** ** Objects of the media runtime *)

Inductive ReadyState := RSlive | RSended | RSother.
Inductive TrackKind := video | audio.

#[global] Instance ReadyState_eq_dec : EqDecision ReadyState.
Proof. solve_decision. Defined.
#[global] Instance TrackKind_eq_dec : EqDecision TrackKind.
Proof. solve_decision. Defined.

Record Track := mkTrack {
  kind : TrackKind;
  readyState : ReadyState;
  enabled : bool
}.

(** A [MediaStream] is observed only through [getTracks()]. *)
Abbreviation MediaStream := (list TrackRef).

Inductive ConnectionState :=
  | CSnew | CSconnecting | CSconnected | CSdisconnected | CSfailed | CSclosed.

#[global] Instance ConnectionState_eq_dec : EqDecision ConnectionState.
Proof. solve_decision. Defined.

(** Which [new RTCPeerConnection] of the gateway made the object, and for which
    client: the one in [handleOffer] or the one in
    [createReceiverConnection].  The handlers installed on the object close
    over that client. *)
Inductive Site :=
  | SenderSite (client : ClientId)
  | ReceiverSite (client : ClientId).

#[global] Instance Site_eq_dec : EqDecision Site.
Proof. solve_decision. Defined.

Definition is_sender_site (s : Site) : bool :=
  match s with SenderSite _ => true | ReceiverSite _ => false end.

Record RTCPeerConnection := mkPC {
  pc_site : Site;
  pc_closed : bool;
  connectionState : ConnectionState;
  remoteDescription : option SDP;
  localDescription : option SDP;
  iceCandidates : list Candidate;   (* accepted by addIceCandidate, in order *)
  getSenders : list TrackRef;       (* tracks bound with addTrack *)
  getReceivers : list TrackRef      (* getReceivers().map(r => r.track) *)
}.

Definition newPC (s : Site) : RTCPeerConnection :=
  mkPC s false CSnew None None [] [] [].

Definition pc_close (pc : RTCPeerConnection) : RTCPeerConnection :=
  mkPC (pc_site pc) true CSclosed (remoteDescription pc) (localDescription pc)
       (iceCandidates pc) (getSenders pc) (getReceivers pc).

Definition pc_setRemote (d : SDP) (pc : RTCPeerConnection) : RTCPeerConnection :=
  mkPC (pc_site pc) (pc_closed pc) (connectionState pc) (Some d)
       (localDescription pc) (iceCandidates pc) (getSenders pc) (getReceivers pc).

Definition pc_setLocal (d : SDP) (pc : RTCPeerConnection) : RTCPeerConnection :=
  mkPC (pc_site pc) (pc_closed pc) (connectionState pc) (remoteDescription pc)
       (Some d) (iceCandidates pc) (getSenders pc) (getReceivers pc).

Definition pc_pushCandidate (c : Candidate) (pc : RTCPeerConnection) : RTCPeerConnection :=
  mkPC (pc_site pc) (pc_closed pc) (connectionState pc) (remoteDescription pc)
       (localDescription pc) (iceCandidates pc ++ [c]) (getSenders pc) (getReceivers pc).

Definition pc_addTracks (ts : list TrackRef) (pc : RTCPeerConnection) : RTCPeerConnection :=
  mkPC (pc_site pc) (pc_closed pc) (connectionState pc) (remoteDescription pc)
       (localDescription pc) (iceCandidates pc) (getSenders pc ++ ts) (getReceivers pc).

Definition pc_addReceiver (t : TrackRef) (pc : RTCPeerConnection) : RTCPeerConnection :=
  mkPC (pc_site pc) (pc_closed pc) (connectionState pc) (remoteDescription pc)
       (localDescription pc) (iceCandidates pc) (getSenders pc) (getReceivers pc ++ [t]).

Definition pc_setState (s : ConnectionState) (pc : RTCPeerConnection) : RTCPeerConnection :=
  mkPC (pc_site pc) (pc_closed pc) s (remoteDescription pc)
       (localDescription pc) (iceCandidates pc) (getSenders pc) (getReceivers pc).

(** ** What the gateway emits and logs *)

Inductive Msg :=
  | start_webrtc
  | webrtc_offer (offer : SDP)
  | webrtc_answer (answer : SDP)
  | webrtc_ice_candidate (candidate : Candidate).

Inductive Event :=
  | Emit (to : ClientId) (m : Msg)               (* client.emit(...) *)
  | PcCreated (r : PcRef)                        (* new RTCPeerConnection *)
  | PcClosed (r : PcRef)                         (* pc.close() *)
  | IceApplied (r : PcRef) (c : Candidate)       (* addIceCandidate resolved *)
  | IceFailed (r : PcRef) (c : Candidate)        (* addIceCandidate rejected *)
  | WarnNoPeerConnection (from : ClientId) (c : Candidate)
  | WarnNoClient (cid : ClientId)
  | WarnNoReceiver (cid : ClientId)
  | ErrNoRuntime                                  (* wrtc not loaded *)
  | ErrOffer (from : ClientId)
  | ErrAnswer (from : ClientId).

(** ** Timers and continuations *)

(** [track.onended] as assigned by [ontrack] (clear the stream) or by
    [processLiveTrack] (look for a replacement; [m] is the closure cell of
    that call holding [currentTrack]). *)
Inductive EndedHandler :=
  | HClear
  | HRepair (m : nat).

Inductive Timer :=
  | TCreateReceiver (cid : ClientId) (delay : nat)
      (* setTimeout(() => createReceiverConnection(id), 500) *)
  | TOfferResume (cid : ClientId) (made : PcRef) (offer : SDP) (srd_ok : bool)
      (* handleOffer suspended at await setRemoteDescription(offer) *)
  | TCheckTrack (t : TrackRef) (streams : option (list MediaStream))
                (cid : ClientId) (checkCount : nat)
      (* setInterval of ontrack, 100 ms *)
  | TWaitLive (t : TrackRef) (streams : option (list MediaStream))
              (cid : ClientId) (checkCount : nat)
      (* setInterval of handleTrackReceived, 100 ms *)
  | TMonitor (m : nat) (delay : nat)
      (* setTimeout(monitorTrack, delay) *)
  | TSearch (m : nat) (checkCount : nat)
      (* setInterval of monitorTrack's ended branch, 200 ms *)
  | TReceiverWait (pc : PcRef) (cid : ClientId) (checkCount : nat).
      (* setInterval of createReceiverConnection, 100 ms *)

(** ** The gateway *)

Record Hub := mkHub {
  wrtc : bool;                                   (* the runtime module loaded *)
  connections : list ClientId;                   (* Map keys, insertion order *)
  senderPeerConnection : option PcRef;
  senderClientId : option ClientId;
  receiverPeerConnections : gmap ClientId PcRef;
  receivedStream : option MediaStream;
  pcs : list RTCPeerConnection;                  (* store; a PcRef is an index *)
  tracks : gmap TrackRef Track;                  (* store of track objects *)
  onended : gmap TrackRef EndedHandler;          (* track.onended *)
  monitors : list TrackRef;                      (* currentTrack cells *)
  timers : list Timer;
  log : list Event
}.

Definition init (w : bool) : Hub :=
  mkHub w [] None None ∅ None [] ∅ ∅ [] [] [].

Definition set_connections (f : list ClientId → list ClientId) (h : Hub) : Hub :=
  mkHub (wrtc h) (f (connections h)) (senderPeerConnection h) (senderClientId h)
        (receiverPeerConnections h) (receivedStream h) (pcs h) (tracks h)
        (onended h) (monitors h) (timers h) (log h).

Definition set_senderPeerConnection (v : option PcRef) (h : Hub) : Hub :=
  mkHub (wrtc h) (connections h) v (senderClientId h)
        (receiverPeerConnections h) (receivedStream h) (pcs h) (tracks h)
        (onended h) (monitors h) (timers h) (log h).

Definition set_senderClientId (v : option ClientId) (h : Hub) : Hub :=
  mkHub (wrtc h) (connections h) (senderPeerConnection h) v
        (receiverPeerConnections h) (receivedStream h) (pcs h) (tracks h)
        (onended h) (monitors h) (timers h) (log h).

Definition set_receiverPeerConnections
    (f : gmap ClientId PcRef → gmap ClientId PcRef) (h : Hub) : Hub :=
  mkHub (wrtc h) (connections h) (senderPeerConnection h) (senderClientId h)
        (f (receiverPeerConnections h)) (receivedStream h) (pcs h) (tracks h)
        (onended h) (monitors h) (timers h) (log h).

Definition set_receivedStream (v : option MediaStream) (h : Hub) : Hub :=
  mkHub (wrtc h) (connections h) (senderPeerConnection h) (senderClientId h)
        (receiverPeerConnections h) v (pcs h) (tracks h)
        (onended h) (monitors h) (timers h) (log h).

Definition set_pcs (f : list RTCPeerConnection → list RTCPeerConnection) (h : Hub) : Hub :=
  mkHub (wrtc h) (connections h) (senderPeerConnection h) (senderClientId h)
        (receiverPeerConnections h) (receivedStream h) (f (pcs h)) (tracks h)
        (onended h) (monitors h) (timers h) (log h).

Definition set_tracks (f : gmap TrackRef Track → gmap TrackRef Track) (h : Hub) : Hub :=
  mkHub (wrtc h) (connections h) (senderPeerConnection h) (senderClientId h)
        (receiverPeerConnections h) (receivedStream h) (pcs h) (f (tracks h))
        (onended h) (monitors h) (timers h) (log h).

Definition set_onended
    (f : gmap TrackRef EndedHandler → gmap TrackRef EndedHandler) (h : Hub) : Hub :=
  mkHub (wrtc h) (connections h) (senderPeerConnection h) (senderClientId h)
        (receiverPeerConnections h) (receivedStream h) (pcs h) (tracks h)
        (f (onended h)) (monitors h) (timers h) (log h).

Definition set_monitors (f : list TrackRef → list TrackRef) (h : Hub) : Hub :=
  mkHub (wrtc h) (connections h) (senderPeerConnection h) (senderClientId h)
        (receiverPeerConnections h) (receivedStream h) (pcs h) (tracks h)
        (onended h) (f (monitors h)) (timers h) (log h).

Definition set_timers (f : list Timer → list Timer) (h : Hub) : Hub :=
  mkHub (wrtc h) (connections h) (senderPeerConnection h) (senderClientId h)
        (receiverPeerConnections h) (receivedStream h) (pcs h) (tracks h)
        (onended h) (monitors h) (f (timers h)) (log h).

Definition set_log (f : list Event → list Event) (h : Hub) : Hub :=
  mkHub (wrtc h) (connections h) (senderPeerConnection h) (senderClientId h)
        (receiverPeerConnections h) (receivedStream h) (pcs h) (tracks h)
        (onended h) (monitors h) (timers h) (f (log h)).

Definition logEv (e : Event) : Hub → Hub := set_log (λ l, l ++ [e]).
Definition setTimer (t : Timer) : Hub → Hub := set_timers (λ l, l ++ [t]).

(** *** Primitive actions on the stores *)

(** [pc.close()] through reference [r]. *)
Definition closePC (r : PcRef) (h : Hub) : Hub :=
  logEv (PcClosed r) (set_pcs (alter pc_close r) h).

(** [new RTCPeerConnection(...)]: the new object's reference is the next free
    index of the store. *)
Definition allocPC (s : Site) (h : Hub) : PcRef * Hub :=
  (length (pcs h), logEv (PcCreated (length (pcs h))) (set_pcs (λ l, l ++ [newPC s]) h)).

Definition updPC (f : RTCPeerConnection → RTCPeerConnection) (r : PcRef) : Hub → Hub :=
  set_pcs (alter f r).

(** [pc.remoteDescription] read through a reference, as a truth value. *)
Definition hasRemoteDescription (h : Hub) (r : PcRef) : bool :=
  match pcs h !! r with
  | Some pc => bool_decide (is_Some (remoteDescription pc))
  | None => false
  end.

Definition readyStateOf (h : Hub) (t : TrackRef) : ReadyState :=
  match tracks h !! t with
  | Some trk => readyState trk
  | None => RSother
  end.

(** [t && t.kind === 'video'] *)
Definition isVideo (h : Hub) (t : TrackRef) : bool :=
  match tracks h !! t with
  | Some trk => bool_decide (kind trk = video)
  | None => false
  end.

Definition liveOf (h : Hub) (ts : list TrackRef) : list TrackRef :=
  filter (λ t, readyStateOf h t = RSlive) ts.

(** [pc.getReceivers().map(r => r.track).filter(t => t && t.kind === 'video')] *)
Definition videoTracks (h : Hub) (r : PcRef) : list TrackRef :=
  match pcs h !! r with
  | Some pc => filter (λ t, isVideo h t = true) (getReceivers pc)
  | None => []
  end.

(** [Map.set] and [Map.delete] on the keys of [connections]. *)
Definition conn_set (cid : ClientId) (l : list ClientId) : list ClientId :=
  if decide (cid ∈ l) then l else l ++ [cid].

Definition conn_delete (cid : ClientId) (l : list ClientId) : list ClientId :=
  filter (λ c, c ≠ cid) l.

(** *** createReceiverConnection

    The synchronous part runs up to [await receiverPC.createOffer()]; what
    follows the awaits only touches the new connection and the captured
    socket, so the two parts are one segment.  [createOffer] and
    [setLocalDescription] on a connection just made are taken to resolve. *)
Definition createReceiverConnection (clientId : ClientId) (h : Hub) : Hub :=
  if negb (wrtc h) then logEv ErrNoRuntime h
  else if negb (bool_decide (clientId ∈ connections h)) then logEv (WarnNoClient clientId) h
  else
    let h1 := match receiverPeerConnections h !! clientId with
              | Some existingPC => closePC existingPC h
              | None => h
              end in
    let '(receiverPC, h2) := allocPC (ReceiverSite clientId) h1 in
    let h3 := match receivedStream h2 with
              | Some stream =>
                  match liveOf h2 stream with
                  | [] => setTimer (TReceiverWait receiverPC clientId 0) h2
                  | liveTracks => updPC (pc_addTracks liveTracks) receiverPC h2
                  end
              | None => h2
              end in
    let h4 := set_receiverPeerConnections (insert clientId receiverPC) h3 in
    let h5 := updPC (pc_setLocal (HubOffer receiverPC)) receiverPC h4 in
    logEv (Emit clientId (webrtc_offer (HubOffer receiverPC))) h5.

(** One firing of the interval armed by [createReceiverConnection] when the
    stream had no live track.  [addTrack] on a closed connection throws. *)
Definition receiverWait_tick (receiverPC : PcRef) (clientId : ClientId)
    (checkCount : nat) (h : Hub) : Hub :=
  let checkCount := S checkCount in
  let currentTracks := default [] (receivedStream h) in
  match liveOf h currentTracks with
  | [] =>
      if bool_decide (Forall (λ t, readyStateOf h t = RSended) currentTracks)
         || bool_decide (100 ≤ checkCount)
      then h
      else setTimer (TReceiverWait receiverPC clientId checkCount) h
  | currentLiveTracks =>
      match pcs h !! receiverPC with
      | Some pc => if pc_closed pc then h
                   else updPC (pc_addTracks currentLiveTracks) receiverPC h
      | None => h
      end
  end.

(** *** monitorTrack and the interval of its ended branch *)

(** [liveTracks.find(t => t.id !== currentTrack.id) || liveTracks[0]] *)
Definition pickReplacement (currentTrack : TrackRef) (liveTracks : list TrackRef)
    : option TrackRef :=
  match List.find (λ t, bool_decide (t ≠ currentTrack)) liveTracks with
  | Some t => Some t
  | None => head liveTracks
  end.

(** [currentTrack = t; this.receivedStream = new MediaStream([t])] *)
Definition promote (m : nat) (t : TrackRef) (h : Hub) : Hub :=
  set_receivedStream (Some [t]) (set_monitors (<[m := t]>) h).

Definition monitorTrack (m : nat) (h : Hub) : Hub :=
  match senderPeerConnection h with
  | None => h
  | Some spc =>
      let currentTrack := default 0 (monitors h !! m) in
      let currentTrackState := readyStateOf h currentTrack in
      let liveTracks := liveOf h (videoTracks h spc) in
      if bool_decide (currentTrackState = RSlive)
         && bool_decide (is_Some (receivedStream h)) then
        if bool_decide (readyStateOf h currentTrack = RSlive) then
          setTimer (TMonitor m 2000) h
        else
          match pickReplacement currentTrack liveTracks with
          | Some newLiveTrack => setTimer (TMonitor m 2000) (promote m newLiveTrack h)
          | None => set_receivedStream None h
          end
      else if bool_decide (currentTrackState = RSended) then
        match pickReplacement currentTrack liveTracks with
        | Some newLiveTrack => setTimer (TMonitor m 2000) (promote m newLiveTrack h)
        | None => setTimer (TSearch m 0) h
        end
      else setTimer (TMonitor m 1000) h
  end.

(** One firing of [checkInterval] of the ended branch, entered with the value
    [checkCount] had before the firing.  The result is the new state and,
    when the interval stays armed, the new value of [checkCount]. *)
Definition checkInterval_tick (m : nat) (checkCount : nat) (h : Hub)
    : Hub * option nat :=
  let checkCount := S checkCount in
  match senderPeerConnection h with
  | None => (h, None)
  | Some spc =>
      match liveOf h (videoTracks h spc) with
      | foundLiveTrack :: _ =>
          (setTimer (TMonitor m 2000) (promote m foundLiveTrack h), None)
      | [] =>
          if bool_decide (50 ≤ checkCount)
          then (set_receivedStream None h, None)
          else (h, Some checkCount)
      end
  end.

(** *** processLiveTrack, handleTrackReceived, ontrack *)

Definition processLiveTrack (track : TrackRef) (streams : option (list MediaStream))
    (senderClientId : ClientId) (h : Hub) : Hub :=
  let h1 := set_receivedStream
              (match streams with
               | Some (s :: _) => Some s
               | _ => Some [track]
               end) h in
  let m := length (monitors h1) in
  let h2 := set_monitors (λ l, l ++ [track]) h1 in
  let h3 := set_onended (<[track := HRepair m]>) h2 in
  let h4 := monitorTrack m h3 in
  foldl (λ acc clientId,
           if negb (bool_decide (is_Some (receiverPeerConnections acc !! clientId)))
              && bool_decide (clientId ≠ senderClientId)
           then createReceiverConnection clientId acc
           else acc)
        h4 (connections h4).

Definition handleTrackReceived (track : TrackRef) (streams : option (list MediaStream))
    (senderClientId : ClientId) (h : Hub) : Hub :=
  if bool_decide (readyStateOf h track ≠ RSlive)
  then setTimer (TWaitLive track streams senderClientId 0) h
  else processLiveTrack track streams senderClientId h.

Definition waitLive_tick (track : TrackRef) (streams : option (list MediaStream))
    (senderClientId : ClientId) (checkCount : nat) (h : Hub) : Hub :=
  let checkCount := S checkCount in
  if bool_decide (readyStateOf h track = RSlive)
  then processLiveTrack track streams senderClientId h
  else if bool_decide (readyStateOf h track = RSended) || bool_decide (100 ≤ checkCount)
  then h
  else setTimer (TWaitLive track streams senderClientId checkCount) h.

(** [senderPeerConnection.ontrack], installed by [handleOffer] for the
    offering client [clientId]. *)
Definition ontrack (clientId : ClientId) (track : TrackRef)
    (streams : option (list MediaStream)) (h : Hub) : Hub :=
  if bool_decide (readyStateOf h track ≠ RSlive) then
    setTimer (TCheckTrack track streams clientId 0)
             (set_onended (<[track := HClear]>) h)
  else handleTrackReceived track streams clientId h.

Definition checkTrack_tick (track : TrackRef) (streams : option (list MediaStream))
    (clientId : ClientId) (checkCount : nat) (h : Hub) : Hub :=
  let checkCount := S checkCount in
  let h1 := if bool_decide (readyStateOf h track = RSlive)
            then handleTrackReceived track streams clientId h
            else h in
  if bool_decide (readyStateOf h1 track = RSlive)
     || bool_decide (readyStateOf h1 track = RSended)
     || bool_decide (50 ≤ checkCount)
  then h1
  else setTimer (TCheckTrack track streams clientId checkCount) h1.

(** [track.onended] *)
Definition fire_onended (hd : EndedHandler) (h : Hub) : Hub :=
  match hd with
  | HClear => set_receivedStream None h
  | HRepair m =>
      match senderPeerConnection h with
      | Some spc =>
          match liveOf h (videoTracks h spc) with
          | newLiveTrack :: _ => promote m newLiveTrack h
          | [] => set_receivedStream None h
          end
      | None => set_receivedStream None h
      end
  end.

(** *** Message handlers *)

Definition handleConnectionAccept (client : ClientId) (h : Hub) : Hub :=
  logEv (Emit client start_webrtc) h.

Definition handleConnection (client : ClientId) (h : Hub) : Hub :=
  let h1 := set_connections (conn_set client) h in
  let h2 := handleConnectionAccept client h1 in
  if bool_decide (is_Some (receivedStream h2))
  then setTimer (TCreateReceiver client 500) h2
  else h2.

Definition handleDisconnect (client : ClientId) (h : Hub) : Hub :=
  let h1 := set_connections (conn_delete client) h in
  let h2 :=
    match senderPeerConnection h1 with
    | Some spc =>
        if bool_decide (senderClientId h1 = Some client) then
          set_receivedStream None
            (set_senderClientId None
               (set_senderPeerConnection None (closePC spc h1)))
        else h1
    | None => h1
    end in
  match receiverPeerConnections h2 !! client with
  | Some receiverPC =>
      set_receiverPeerConnections (delete client) (closePC receiverPC h2)
  | None => h2
  end.

(** [client.disconnect()]: the transport then reports the disconnection, which
    runs [handleDisconnect]. *)
Definition handleConnectionReject (client : ClientId) (h : Hub) : Hub :=
  handleDisconnect client h.

(** [handleOffer] up to its first suspension, [await
    setRemoteDescription(offer)] on the connection just made.  The promise is
    a pending continuation; [srd_ok] tells whether the runtime will accept
    the description. *)
Definition handleOffer (client : ClientId) (offer : SDP) (srd_ok : bool) (h : Hub) : Hub :=
  if negb (wrtc h) then logEv ErrNoRuntime h
  else
    let h1 := match senderPeerConnection h with
              | Some old =>
                  set_senderClientId None
                    (set_senderPeerConnection None (closePC old h))
              | None => h
              end in
    let h2 := set_senderClientId (Some client) h1 in
    let '(spc, h3) := allocPC (SenderSite client) h2 in
    let h4 := set_senderPeerConnection (Some spc) h3 in
    setTimer (TOfferResume client spc offer srd_ok) h4.

(** The rest of [handleOffer].  The description is set on the connection the
    call was made on; the promise rejects when the runtime refuses it or the
    connection was closed meanwhile, and the [catch] block logs.  After that
    every read goes through [this.senderPeerConnection] again; when the field
    is null by then the access throws into the [catch] block.  The later
    awaits ([createAnswer], [setLocalDescription]) are taken to resolve and
    are not separate suspension points. *)
Definition handleOffer_resume (client : ClientId) (made : PcRef) (offer : SDP)
    (srd_ok : bool) (h : Hub) : Hub :=
  match pcs h !! made with
  | Some pc =>
      if srd_ok && negb (pc_closed pc) then
        let h0 := updPC (pc_setRemote offer) made h in
        match senderPeerConnection h0 with
        | None => logEv (ErrOffer client) h0
        | Some spc =>
            let h1 := updPC (pc_setLocal (HubAnswer spc)) spc h0 in
            let h2 := match liveOf h1 (videoTracks h1 spc) with
                      | liveTrack :: _ => handleTrackReceived liveTrack None client h1
                      | [] => h1
                      end in
            logEv (Emit client (webrtc_answer (HubAnswer spc))) h2
        end
      else logEv (ErrOffer client) h
  | None => logEv (ErrOffer client) h
  end.

(** [ok] tells whether [setRemoteDescription(answer)] resolves. *)
Definition handleAnswer (client : ClientId) (answer : SDP) (ok : bool) (h : Hub) : Hub :=
  match receiverPeerConnections h !! client with
  | Some receiverPC =>
      if negb (wrtc h) then logEv ErrNoRuntime h
      else if ok then updPC (pc_setRemote answer) receiverPC h
      else logEv (ErrAnswer client) h
  | None => logEv (WarnNoReceiver client) h
  end.

(** [await pc.addIceCandidate(c)] inside [try]; [ok] tells whether it
    resolves. *)
Definition addIceCandidate (r : PcRef) (c : Candidate) (ok : bool) (h : Hub) : Hub :=
  if ok then logEv (IceApplied r c) (updPC (pc_pushCandidate c) r h)
  else logEv (IceFailed r c) h.

(** The test [pc && pc.remoteDescription] on a field or map entry: the
    connection, when there is one and it has a remote description. *)
Definition withRemoteDescription (h : Hub) (o : option PcRef) : option PcRef :=
  match o with
  | Some r => if hasRemoteDescription h r then Some r else None
  | None => None
  end.

Definition handleIceCandidate (client : ClientId) (candidate : Candidate)
    (ok : bool) (h : Hub) : Hub :=
  if negb (wrtc h) then logEv ErrNoRuntime h
  else
    match withRemoteDescription h (senderPeerConnection h) with
    | Some spc => addIceCandidate spc candidate ok h
    | None =>
        match withRemoteDescription h (receiverPeerConnections h !! client) with
        | Some receiverPC => addIceCandidate receiverPC candidate ok h
        | None => logEv (WarnNoPeerConnection client candidate) h
        end
    end.

(** *** Events of the media runtime *)

Definition is_lost (s : ConnectionState) : bool :=
  bool_decide (s = CSdisconnected) || bool_decide (s = CSfailed).

(** [onconnectionstatechange] of the connection [r], after the runtime moved
    it to state [s].  The handler of a sender connection reads the state of
    whatever [this.senderPeerConnection] is at that time. *)
Definition onconnectionstatechange (r : PcRef) (s : ConnectionState) (h : Hub) : Hub :=
  match pcs h !! r with
  | Some pc =>
      if pc_closed pc then h
      else
        let h1 := updPC (pc_setState s) r h in
        match pc_site pc with
        | SenderSite _ =>
            match senderPeerConnection h1 ≫= (λ spc, pcs h1 !! spc) with
            | Some cur => if is_lost (connectionState cur)
                          then set_receivedStream None h1 else h1
            | None => h1
            end
        | ReceiverSite clientId =>
            if is_lost s
            then set_receiverPeerConnections (delete clientId) h1
            else h1
        end
  | None => h
  end.

(** [onicecandidate] with a non-null candidate. *)
Definition onicecandidate (r : PcRef) (c : Candidate) (h : Hub) : Hub :=
  match pcs h !! r with
  | Some pc =>
      match pc_site pc with
      | SenderSite client | ReceiverSite client =>
          logEv (Emit client (webrtc_ice_candidate c)) h
      end
  | None => h
  end.

(** The runtime delivers a track on connection [r]. *)
Definition track_event (r : PcRef) (t : TrackRef)
    (streams : option (list MediaStream)) (h : Hub) : Hub :=
  match pcs h !! r with
  | Some pc =>
      match pc_site pc with
      | SenderSite client => if pc_closed pc then h else ontrack client t streams h
      | ReceiverSite _ => h
      end
  | None => h
  end.

(** The runtime creates the track object [t] or changes its fields.  A change
    to [ended] may fire [track.onended] ([notify]); the runtime ends the
    tracks of a connection that is closed without firing it. *)
Definition track_update (t : TrackRef) (trk : Track) (notify : bool) (h : Hub) : Hub :=
  let h1 := set_tracks (<[t := trk]>) h in
  if bool_decide (readyState trk = RSended) && notify then
    match onended h1 !! t with
    | Some hd => fire_onended hd h1
    | None => h1
    end
  else h1.

(** *** Operations of the hub

    [broadcastStreamToReceivers] is called from nowhere in the gateway (the
    comments at its former call sites say why) and is not an operation. *)

Definition fire (tm : Timer) (h : Hub) : Hub :=
  match tm with
  | TCreateReceiver cid _ => createReceiverConnection cid h
  | TOfferResume cid made offer ok => handleOffer_resume cid made offer ok h
  | TCheckTrack t s cid n => checkTrack_tick t s cid n h
  | TWaitLive t s cid n => waitLive_tick t s cid n h
  | TMonitor m _ => monitorTrack m h
  | TSearch m n =>
      match checkInterval_tick m n h with
      | (h', Some n') => setTimer (TSearch m n') h'
      | (h', None) => h'
      end
  | TReceiverWait r cid n => receiverWait_tick r cid n h
  end.

Inductive Op :=
  | Connection (client : ClientId)
  | Disconnect (client : ClientId)
  | ConnectionAccept (client : ClientId)
  | ConnectionReject (client : ClientId)
  | Offer (client : ClientId) (offer : SDP) (srd_ok : bool)
  | Answer (client : ClientId) (answer : SDP) (ok : bool)
  | IceCandidate (client : ClientId) (candidate : Candidate) (ok : bool)
  | Fire (i : nat)                       (* the i-th pending timer fires *)
  | TrackEvent (r : PcRef) (t : TrackRef) (streams : option (list MediaStream))
  | TrackUpdate (t : TrackRef) (trk : Track) (notify : bool)
  | NewReceiver (r : PcRef) (t : TrackRef)
  | ConnectionStateChange (r : PcRef) (s : ConnectionState)
  | LocalCandidate (r : PcRef) (c : Candidate).

Definition step (h : Hub) (op : Op) : Hub :=
  match op with
  | Connection c => handleConnection c h
  | Disconnect c => handleDisconnect c h
  | ConnectionAccept c => handleConnectionAccept c h
  | ConnectionReject c => handleConnectionReject c h
  | Offer c o ok => handleOffer c o ok h
  | Answer c a ok => handleAnswer c a ok h
  | IceCandidate c cand ok => handleIceCandidate c cand ok h
  | Fire i =>
      match timers h !! i with
      | Some tm => fire tm (set_timers (delete i) h)
      | None => h
      end
  | TrackEvent r t s => track_event r t s h
  | TrackUpdate t trk notify => track_update t trk notify h
  | NewReceiver r t => updPC (pc_addReceiver t) r h
  | ConnectionStateChange r s => onconnectionstatechange r s h
  | LocalCandidate r c => onicecandidate r c h
  end.

Definition run (h : Hub) (ops : list Op) : Hub := foldl step h ops.

Inductive reachable : Hub → Prop :=
  | reachable_init w : reachable (init w)
  | reachable_step h op : reachable h → reachable (step h op).

(** *** Properties of hub states used below *)

(** References of the producer connections that are open. *)
Definition is_open_sender (pc : RTCPeerConnection) : bool :=
  is_sender_site (pc_site pc) && negb (pc_closed pc).

Definition openProducerSessions (h : Hub) : list PcRef :=
  filter (λ r, is_open_sender <$> pcs h !! r = Some true) (seq 0 (length (pcs h))).

(** For each connection of the store: where it was made and whether it is
    closed. *)
Definition site_of (pc : RTCPeerConnection) : Site * bool :=
  (pc_site pc, pc_closed pc).

Definition sites (h : Hub) : list (Site * bool) := site_of <$> pcs h.

Definition mark_closed (p : Site * bool) : Site * bool := (p.1, true).

(** The effect on [sites] of closing the connection [o] refers to, if any. *)
Definition close_opt (o : option PcRef) (l : list (Site * bool)) : list (Site * bool) :=
  match o with
  | Some old => alter mark_closed old l
  | None => l
  end.

(** The effect of the same on the store itself. *)
Definition close_pcs (o : option PcRef) (l : list RTCPeerConnection)
    : list RTCPeerConnection :=
  match o with
  | Some old => alter pc_close old l
  | None => l
  end.

(** The log entry of that. *)
Definition closed_ev (o : option PcRef) : list Event :=
  match o with
  | Some old => [PcClosed old]
  | None => []
  end.

(** The producer connection, when [client] is the producer and has one: the
    guard of the first branch of [handleDisconnect]. *)
Definition producerSessionOf (client : ClientId) (h : Hub) : option PcRef :=
  match senderPeerConnection h with
  | Some spc => if bool_decide (senderClientId h = Some client) then Some spc else None
  | None => None
  end.


(** The registered producer connection is an open connection made by
    [handleOffer]; no other such connection is open; every registered consumer
    connection is open and was made by [createReceiverConnection] for the
    client it is registered under. *)
Record SessionsInv (h : Hub) : Prop := {
  inv_sender_open : ∀ r, senderPeerConnection h = Some r →
    ∃ cid, sites h !! r = Some (SenderSite cid, false);
  inv_sender_only : ∀ r cid, sites h !! r = Some (SenderSite cid, false) →
    senderPeerConnection h = Some r;
  inv_receivers : ∀ cid r, receiverPeerConnections h !! cid = Some r →
    sites h !! r = Some (ReceiverSite cid, false)
}.

(** What decides the session invariant. *)
Definition skeleton (h : Hub)
    : option PcRef * gmap ClientId PcRef * list (Site * bool) :=
  (senderPeerConnection h, receiverPeerConnections h, sites h).

(** A connection that was given a candidate has a remote description. *)
Definition candidates_after_remote (pc : RTCPeerConnection) : Prop :=
  iceCandidates pc = [] ∨ is_Some (remoteDescription pc).

Definition CandidatesInv (h : Hub) : Prop :=
  Forall candidates_after_remote (pcs h).

(** An update of a connection that neither adds a candidate nor removes the
    remote description. *)
Definition benign (g : RTCPeerConnection → RTCPeerConnection) : Prop :=
  ∀ pc, iceCandidates (g pc) = iceCandidates pc ∧
        (is_Some (remoteDescription pc) → is_Some (remoteDescription (g pc))).

(** The search for a replacement track: [checkInterval] of [monitorTrack]
    fires against the states [world 0], [world 1], ... that the hub is in at
    successive firings (whatever happened in between), starting with
    [checkCount].  The result is the number of firings up to the one that
    cleared the interval and the state that firing left. *)
Fixpoint search_ticks (fuel : nat) (m : nat) (world : nat → Hub) (checkCount : nat)
    : option (nat * Hub) :=
  match fuel with
  | O => None
  | S fuel' =>
      match checkInterval_tick m checkCount (world checkCount) with
      | (h', None) => Some (S checkCount, h')
      | (_, Some checkCount') => search_ticks fuel' m world checkCount'
      end
  end.

(** The three ways a firing of [checkInterval] clears the interval: the
    producer connection is gone; a live video track was found and promoted;
    or the last attempt found none and the stream is cleared. *)
Definition cleared_by (m checkCount : nat) (h h' : Hub) : Prop :=
  (senderPeerConnection h = None ∧ h' = h) ∨
  (∃ spc t ts, senderPeerConnection h = Some spc ∧
     liveOf h (videoTracks h spc) = t :: ts ∧
     h' = setTimer (TMonitor m 2000) (promote m t h) ∧
     receivedStream h' = Some [t] ∧
     readyStateOf h t = RSlive ∧ isVideo h t = true) ∨
  (∃ spc, senderPeerConnection h = Some spc ∧
     liveOf h (videoTracks h spc) = [] ∧
     checkCount = 50 ∧
     h' = set_receivedStream None h ∧ receivedStream h' = None).

(** [s] is the first of the streams that came with track [t]. *)
Definition first_of (t : TrackRef) (streams : option (list MediaStream))
    (t' : TrackRef) (s : MediaStream) : Prop :=
  t' = t ∧ ∃ rest, streams = Some (s :: rest).

(** The stream [s] is the first of the streams the runtime delivered together
    with track [t], in the operation [op] or in a poll that [op] fires. *)
Definition delivered_with (h : Hub) (op : Op) (t : TrackRef) (s : MediaStream) : Prop :=
  ∃ rest,
    (∃ r, op = TrackEvent r t (Some (s :: rest))) ∨
    (∃ i cid n, op = Fire i ∧
       (timers h !! i = Some (TCheckTrack t (Some (s :: rest)) cid n) ∨
        timers h !! i = Some (TWaitLive t (Some (s :: rest)) cid n))).

(** How an operation may leave [receivedStream]: untouched, cleared, or set
    from a track that is live. *)
Definition stream_justified (D : TrackRef → MediaStream → Prop) (h h' : Hub) : Prop :=
  receivedStream h' = receivedStream h ∨
  receivedStream h' = None ∨
  ∃ t s, receivedStream h' = Some s ∧ readyStateOf h' t = RSlive ∧ (s = [t] ∨ D t s).

End SignalingGateway.

(** * The producer page: candidate queue of [useScreenShare] *)

Module ScreenShare.

Inductive SignalingState := stable | have_local_offer | have_remote_offer | closed.

#[global] Instance SignalingState_eq_dec : EqDecision SignalingState.
Proof. solve_decision. Defined.

(** The page's connection, as far as the candidate handlers observe it.
    [iceCalls] lists every call of [addIceCandidate] on it, in order, with
    whether the call resolved. *)
Record RTCPeerConnection := mkPC {
  signalingState : SignalingState;
  remoteDescription : option SDP;
  iceCalls : list (Candidate * bool)
}.

Record Page := mkPage {
  peerConnectionRef : option RTCPeerConnection;
  iceCandidateQueueRef : list Candidate
}.

Section Handlers.

(** Whether the runtime accepts a candidate on a connection in a given
    state. *)
Variable accepts : RTCPeerConnection → Candidate → bool.

(** [await pc.addIceCandidate(new RTCIceCandidate(c))]: the connection after
    the call, and whether it resolved. *)
Definition addIceCandidate (pc : RTCPeerConnection) (c : Candidate)
    : RTCPeerConnection * bool :=
  let ok := accepts pc c in
  (mkPC (signalingState pc) (remoteDescription pc) (iceCalls pc ++ [(c, ok)]), ok).

Record Flush := mkFlush {
  flush_pc : RTCPeerConnection;
  successCount : nat;
  failCount : nat
}.

(** The body of [for (const candidateData of candidates)]. *)
Definition flush_one (acc : Flush) (candidateData : Candidate) : Flush :=
  match addIceCandidate (flush_pc acc) candidateData with
  | (pc', true) => mkFlush pc' (S (successCount acc)) (failCount acc)
  | (pc', false) => mkFlush pc' (successCount acc) (S (failCount acc))
  end.

(** [processIceCandidateQueue(pc)]: the connection and the queue afterwards,
    with the two counters when the loop ran. *)
Definition processIceCandidateQueue (pc : RTCPeerConnection) (queue : list Candidate)
    : Flush * list Candidate :=
  match queue with
  | [] => (mkFlush pc 0 0, queue)
  | _ :: _ =>
      match remoteDescription pc with
      | None => (mkFlush pc 0 0, queue)
      | Some _ =>
          let candidates := queue in
          let queue := [] in
          (foldl flush_one (mkFlush pc 0 0) candidates, queue)
      end
  end.

(** [handleIceCandidate(data)] *)
Definition handleIceCandidate (p : Page) (candidate : Candidate) : Page :=
  match peerConnectionRef p with
  | None => p
  | Some pc =>
      if bool_decide (signalingState pc = closed) then p
      else
        match remoteDescription pc with
        | None => mkPage (Some pc) (iceCandidateQueueRef p ++ [candidate])
        | Some _ =>
            match addIceCandidate pc candidate with
            | (pc', true) => mkPage (Some pc') (iceCandidateQueueRef p)
            | (pc', false) => mkPage (Some pc') (iceCandidateQueueRef p ++ [candidate])
            end
        end
  end.

(** [handleAnswer(data)] up to the point where it arms the timer that flushes
    the queue; [ok] tells whether [setRemoteDescription] resolves.  The second
    component tells whether the timer was armed. *)
Definition handleAnswer (p : Page) (answer : SDP) (ok : bool) : Page * bool :=
  match peerConnectionRef p with
  | None => (p, false)
  | Some pc =>
      if bool_decide (signalingState pc = closed) then (p, false)
      else if bool_decide (signalingState pc ≠ have_local_offer) then (p, false)
      else if ok then
        (mkPage (Some (mkPC stable (Some answer) (iceCalls pc)))
                (iceCandidateQueueRef p), true)
      else (p, false)
  end.

(** The timer armed by [handleAnswer], firing while the page still holds the
    connection the timer captured. *)
Definition flushTimer (p : Page) : Page :=
  match peerConnectionRef p with
  | None => p
  | Some pc =>
      let '(f, queue) := processIceCandidateQueue pc (iceCandidateQueueRef p) in
      mkPage (Some (flush_pc f)) queue
  end.

(** [createPeerConnection()]: closes the connection held, empties the queue
    and holds a new connection. *)
Definition createPeerConnection (p : Page) : Page :=
  mkPage (Some (mkPC stable None [])) [].

End Handlers.

End ScreenShare.

(** * Properties of the gateway *)

Module GatewayFacts.
Import SignalingGateway.

(** ** Stores and registries under the primitive actions *)

Lemma hasRemoteDescription_true h r :
  hasRemoteDescription h r = true ↔
  ∃ pc, pcs h !! r = Some pc ∧ is_Some (remoteDescription pc).
Proof.
  unfold hasRemoteDescription. destruct (pcs h !! r) as [pc|]; split.
  - intros H%bool_decide_eq_true. eauto.
  - intros (pc' & [= <-] & H). by apply bool_decide_eq_true.
  - discriminate.
  - intros (? & [=] & _).
Qed.

(** [addIceCandidate] that resolves appends the candidate to the candidates of
    the connection and to nothing else. *)
Lemma addIceCandidate_applies r c h :
  pcs (addIceCandidate r c true h) = alter (pc_pushCandidate c) r (pcs h) ∧
  log (addIceCandidate r c true h) = log h ++ [IceApplied r c].
Proof. done. Qed.

Lemma addIceCandidate_rejected r c h :
  pcs (addIceCandidate r c false h) = pcs h ∧
  log (addIceCandidate r c false h) = log h ++ [IceFailed r c].
Proof. done. Qed.

Lemma reachable_run h ops : reachable h → reachable (run h ops).
Proof.
  revert h. induction ops as [|op ops IH]; intros h Hh; [done|].
  apply IH. by constructor.
Qed.


(** ** The session invariant *)

Lemma fmap_site_alter f r (l : list RTCPeerConnection) :
  (∀ pc, site_of (f pc) = site_of pc) →
  site_of <$> alter f r l = site_of <$> l.
Proof.
  intros Hf. apply list_eq. intros i.
  rewrite !list_lookup_fmap, list_lookup_alter.
  destruct (decide (r = i)) as [->|?]; [|done].
  destruct (l !! i) as [pc|]; [|done]. simpl. by rewrite Hf.
Qed.

Lemma fmap_site_close r (l : list RTCPeerConnection) :
  site_of <$> alter pc_close r l = alter mark_closed r (site_of <$> l).
Proof.
  apply list_eq. intros i.
  rewrite list_lookup_fmap, !list_lookup_alter.
  destruct (decide (r = i)) as [->|?]; rewrite list_lookup_fmap; [|done].
  by destruct (l !! i).
Qed.

Lemma sites_lookup h r : sites h !! r = site_of <$> pcs h !! r.
Proof. unfold sites. apply list_lookup_fmap. Qed.

Lemma sites_length h : length (sites h) = length (pcs h).
Proof. unfold sites. apply length_fmap. Qed.

Lemma sites_updPC f r h :
  (∀ pc, site_of (f pc) = site_of pc) → sites (updPC f r h) = sites h.
Proof. intros Hf. unfold sites, updPC. simpl. by apply fmap_site_alter. Qed.

Lemma sites_closePC r h : sites (closePC r h) = alter mark_closed r (sites h).
Proof. unfold sites, closePC. simpl. apply fmap_site_close. Qed.

Lemma sites_allocPC s h :
  (allocPC s h).1 = length (sites h) ∧
  sites (allocPC s h).2 = sites h ++ [(s, false)].
Proof.
  unfold allocPC, sites. simpl. split.
  - by rewrite length_fmap.
  - by rewrite fmap_app.
Qed.

Lemma SessionsInv_skeleton h h' :
  skeleton h' = skeleton h → SessionsInv h → SessionsInv h'.
Proof.
  unfold skeleton. intros [= Hs Hr Hp] [I0 I1 I9].
  split; rewrite ?Hs, ?Hr, ?Hp; auto.
Qed.

Lemma SessionsInv_init w : SessionsInv (init w).
Proof. split; simpl; intros; simplify_eq; by rewrite ?lookup_empty in *. Qed.

(** A registry entry never refers past the end of the store. *)
Lemma sites_lookup_lt h r x : sites h !! r = Some x → r < length (sites h).
Proof. apply lookup_lt_Some. Qed.

Lemma close_opt_length o l : length (close_opt o l) = length l.
Proof. destruct o; simpl; [apply length_alter|done]. Qed.

Lemma close_opt_lookup_ne o l r :
  o ≠ Some r → close_opt o l !! r = l !! r.
Proof.
  destruct o as [old|]; simpl; [|done].
  intros Hne. apply list_lookup_alter_ne. congruence.
Qed.

(** A connection that is open after the closing was open before, and is not
    the one that was closed. *)
Lemma close_opt_lookup_open o l r s :
  close_opt o l !! r = Some (s, false) → l !! r = Some (s, false) ∧ o ≠ Some r.
Proof.
  destruct o as [old|]; simpl; [|done].
  rewrite list_lookup_alter. destruct (decide (old = r)) as [->|Hne].
  - destruct (l !! r) as [[??]|]; simpl; intros; simplify_eq.
  - intros ->. split; [done|congruence].
Qed.

Lemma lookup_snoc_new (l l' : list (Site * bool)) x :
  length l' = length l → (l' ++ [x]) !! length l = Some x.
Proof.
  intros Hl. rewrite lookup_app_r by lia. by rewrite Hl, Nat.sub_diag.
Qed.

Lemma lookup_snoc_inv (l : list (Site * bool)) x r y :
  (l ++ [x]) !! r = Some y →
  (r = length l ∧ y = x) ∨ (r < length l ∧ l !! r = Some y).
Proof.
  intros H. apply lookup_app_Some in H as [H|[Hge H]].
  - right. split; [by eapply lookup_lt_Some|done].
  - left. destruct (r - length l) as [|k] eqn:Hk; simplify_eq/=.
    split; [lia|done].
Qed.

Lemma lookup_close_snoc_old o (l : list (Site * bool)) x r y :
  l !! r = Some y → o ≠ Some r → (close_opt o l ++ [x]) !! r = Some y.
Proof.
  intros Hr Hne. rewrite lookup_app_l.
  - by rewrite close_opt_lookup_ne.
  - rewrite close_opt_length. by eapply lookup_lt_Some.
Qed.

(** *** Operations that leave the skeleton alone *)

Ltac sk_solve :=
  unfold skeleton, sites; simpl;
  repeat (case_match; simpl);
  rewrite ?fmap_site_alter by done; congruence.

Lemma skeleton_promote m t h : skeleton (promote m t h) = skeleton h.
Proof. done. Qed.

Lemma skeleton_monitorTrack m h : skeleton (monitorTrack m h) = skeleton h.
Proof. unfold monitorTrack. sk_solve. Qed.

Lemma skeleton_checkInterval_tick m n h :
  skeleton (checkInterval_tick m n h).1 = skeleton h.
Proof. unfold checkInterval_tick. sk_solve. Qed.

Lemma skeleton_fire_onended hd h : skeleton (fire_onended hd h) = skeleton h.
Proof. unfold fire_onended. sk_solve. Qed.

Lemma skeleton_receiverWait_tick r c n h :
  skeleton (receiverWait_tick r c n h) = skeleton h.
Proof. unfold receiverWait_tick. sk_solve. Qed.

Lemma skeleton_handleConnection c h : skeleton (handleConnection c h) = skeleton h.
Proof. unfold handleConnection, handleConnectionAccept. sk_solve. Qed.

Lemma skeleton_handleAnswer c a ok h : skeleton (handleAnswer c a ok h) = skeleton h.
Proof. unfold handleAnswer. sk_solve. Qed.

Lemma skeleton_handleIceCandidate c cand ok h :
  skeleton (handleIceCandidate c cand ok h) = skeleton h.
Proof.
  unfold handleIceCandidate, withRemoteDescription, addIceCandidate. sk_solve.
Qed.

Lemma skeleton_onicecandidate r c h : skeleton (onicecandidate r c h) = skeleton h.
Proof. unfold onicecandidate. sk_solve. Qed.

Lemma skeleton_track_update t trk notify h :
  skeleton (track_update t trk notify h) = skeleton h.
Proof.
  unfold track_update. repeat case_match; try done.
  by rewrite skeleton_fire_onended.
Qed.

Lemma skeleton_addReceiver r t h : skeleton (updPC (pc_addReceiver t) r h) = skeleton h.
Proof. sk_solve. Qed.


(** *** createReceiverConnection *)

Lemma createReceiverConnection_refused c h :
  wrtc h = false ∨ c ∉ connections h →
  skeleton (createReceiverConnection c h) = skeleton h ∧
  receivedStream (createReceiverConnection c h) = receivedStream h ∧
  pcs (createReceiverConnection c h) = pcs h.
Proof.
  intros Hc. unfold createReceiverConnection.
  destruct (wrtc h); simpl; [|done].
  destruct Hc as [?|Hc]; [done|].
  by rewrite bool_decide_eq_false_2.
Qed.

(** What a call that goes through does to the registries, the store and the
    log. *)
Lemma createReceiverConnection_effect c h :
  wrtc h = true → c ∈ connections h →
  let h' := createReceiverConnection c h in
  let new := length (pcs h) in
  senderPeerConnection h' = senderPeerConnection h ∧
  receiverPeerConnections h' = <[c := new]> (receiverPeerConnections h) ∧
  sites h' = close_opt (receiverPeerConnections h !! c) (sites h)
             ++ [(ReceiverSite c, false)] ∧
  log h' = log h ++ closed_ev (receiverPeerConnections h !! c)
             ++ [PcCreated new; Emit c (webrtc_offer (HubOffer new))] ∧
  receivedStream h' = receivedStream h ∧
  tracks h' = tracks h ∧
  getSenders <$> pcs h' !! new = Some (liveOf h (default [] (receivedStream h))).
Proof.
  intros Hw Hc. unfold createReceiverConnection.
  rewrite Hw, bool_decide_eq_true_2 by done. simpl.
  unfold allocPC, sites, liveOf, readyStateOf.
  destruct (receiverPeerConnections h !! c) as [old|] eqn:Hold; simpl;
    rewrite ?length_alter;
    (destruct (receivedStream h) as [stream|] eqn:Hst; simpl;
     [ destruct (filter _ stream) as [|t ts] eqn:Hlive; simpl | ]);
    rewrite ?fmap_site_alter by done;
    rewrite ?fmap_app, ?fmap_site_close; simpl;
    rewrite <- ?app_assoc; simpl;
    repeat split; try done.
  all: rewrite !list_lookup_alter_eq, lookup_app_r
         by (rewrite ?length_alter; lia).
  all: rewrite ?length_alter, Nat.sub_diag; done.
Qed.


Lemma createReceiverConnection_inv c h :
  SessionsInv h → SessionsInv (createReceiverConnection c h).
Proof.
  intros Hinv.
  destruct (wrtc h) eqn:Hw;
    [destruct (decide (c ∈ connections h)) as [Hc|Hc]|].
  2,3: eapply SessionsInv_skeleton; [|done];
       apply createReceiverConnection_refused; auto.
  destruct (createReceiverConnection_effect c h Hw Hc)
    as (Hs & Hr & Hp & _).
  destruct Hinv as [I0 I1 I9].
  assert (Hold : ∀ r s, sites h !! r = Some (s, false) →
                 s ≠ ReceiverSite c → receiverPeerConnections h !! c ≠ Some r).
  { intros r s Hr' Hne Heq. apply I9 in Heq. congruence. }
  split; rewrite ?Hs, ?Hr, ?Hp.
  - intros r Hsr. destruct (I0 r Hsr) as [cid Hcid]. exists cid.
    apply lookup_close_snoc_old; [done|]. by eapply Hold.
  - intros r cid [[_ ?]|[_ Hlk]]%lookup_snoc_inv; [congruence|].
    apply close_opt_lookup_open in Hlk as [Hlk _]. eauto.
  - intros cid r. rewrite lookup_insert. case_decide as Hcid.
    + intros [= <-]. subst cid. rewrite <- sites_length.
      apply lookup_snoc_new, close_opt_length.
    + intros Hcr. apply lookup_close_snoc_old; [by apply I9|].
      eapply Hold; [by apply I9|congruence].
Qed.

(** *** handleOffer *)

Lemma handleOffer_refused c o ok h :
  wrtc h = false → handleOffer c o ok h = logEv ErrNoRuntime h.
Proof. intros Hw. unfold handleOffer. by rewrite Hw. Qed.

Lemma handleOffer_effect c o ok h :
  wrtc h = true →
  let h' := handleOffer c o ok h in
  let new := length (pcs h) in
  senderPeerConnection h' = Some new ∧
  senderClientId h' = Some c ∧
  receiverPeerConnections h' = receiverPeerConnections h ∧
  sites h' = close_opt (senderPeerConnection h) (sites h) ++ [(SenderSite c, false)] ∧
  log h' = log h ++ closed_ev (senderPeerConnection h) ++ [PcCreated new] ∧
  timers h' = timers h ++ [TOfferResume c new o ok] ∧
  receivedStream h' = receivedStream h.
Proof.
  intros Hw. unfold handleOffer. rewrite Hw. simpl.
  unfold allocPC, sites.
  destruct (senderPeerConnection h) as [old|]; simpl;
    rewrite ?length_alter, ?fmap_app, ?fmap_site_close, <- ?app_assoc; done.
Qed.

Lemma handleOffer_inv c o ok h :
  SessionsInv h → SessionsInv (handleOffer c o ok h).
Proof.
  intros Hinv. destruct (wrtc h) eqn:Hw.
  2: { rewrite handleOffer_refused by done.
       by eapply SessionsInv_skeleton; [|done]. }
  destruct (handleOffer_effect c o ok h Hw) as (Hs & _ & Hr & Hp & _).
  destruct Hinv as [I0 I1 I9].
  split; rewrite ?Hs, ?Hr, ?Hp.
  - intros r [= <-]. exists c. rewrite <- sites_length.
    apply lookup_snoc_new, close_opt_length.
  - intros r cid [[-> _]|[_ Hlk]]%lookup_snoc_inv.
    + by rewrite close_opt_length, sites_length.
    + apply close_opt_lookup_open in Hlk as [Hlk Hne].
      by apply I1 in Hlk.
  - intros cid r Hcr. apply I9 in Hcr as Hlk.
    apply lookup_close_snoc_old; [done|].
    intros Hsr. apply I0 in Hsr as [? ?]. congruence.
Qed.


(** *** handleDisconnect *)

Lemma handleDisconnect_effect c h :
  let h' := handleDisconnect c h in
  let prod := producerSessionOf c h in
  senderPeerConnection h' = match prod with Some _ => None | None => senderPeerConnection h end ∧
  senderClientId h' = match prod with Some _ => None | None => senderClientId h end ∧
  receivedStream h' = match prod with Some _ => None | None => receivedStream h end ∧
  receiverPeerConnections h' = delete c (receiverPeerConnections h) ∧
  sites h' = close_opt (receiverPeerConnections h !! c) (close_opt prod (sites h)) ∧
  log h' = log h ++ closed_ev prod ++ closed_ev (receiverPeerConnections h !! c) ∧
  connections h' = conn_delete c (connections h).
Proof.
  unfold handleDisconnect, producerSessionOf. simpl.
  destruct (senderPeerConnection h) as [spc|] eqn:Hs; simpl;
    [destruct (bool_decide (senderClientId h = Some c)) eqn:Hc; simpl|];
    (destruct (receiverPeerConnections h !! c) as [old|] eqn:Hold; simpl);
    rewrite ?Hs, ?sites_closePC; unfold sites; simpl;
    rewrite ?fmap_site_close, <- ?app_assoc, ?app_nil_r; repeat split; try done.
  all: symmetry; by apply delete_id.
Qed.

Lemma handleDisconnect_inv c h :
  SessionsInv h → SessionsInv (handleDisconnect c h).
Proof.
  intros [I0 I1 I9].
  destruct (handleDisconnect_effect c h) as (Hs & _ & _ & Hr & Hp & _).
  assert (Hprod : ∀ spc, producerSessionOf c h = Some spc →
                         senderPeerConnection h = Some spc).
  { unfold producerSessionOf. intros spc.
    destruct (senderPeerConnection h); [|done].
    by destruct (bool_decide (senderClientId h = Some c)). }
  split; rewrite ?Hs, ?Hr, ?Hp.
  - intros r. destruct (producerSessionOf c h) eqn:Hpr; [done|].
    intros Hsr. destruct (I0 r Hsr) as [cid Hcid]. exists cid.
    rewrite close_opt_lookup_ne; [done|].
    intros Hcr%I9. simpl in Hcr. congruence.
  - intros r cid [[Hlk Hne]%close_opt_lookup_open _]%close_opt_lookup_open.
    apply I1 in Hlk. destruct (producerSessionOf c h) as [spc|]; [|done].
    specialize (Hprod spc eq_refl). congruence.
  - intros cid r [Hne Hcr]%lookup_delete_Some. apply I9 in Hcr as Hlk.
    rewrite !close_opt_lookup_ne; [done| |].
    + intros Hpr%Hprod. apply I0 in Hpr as [? ?]. congruence.
    + intros Hc'%I9. congruence.
Qed.

Ltac inv_by_skeleton :=
  eapply SessionsInv_skeleton; [|eassumption]; first [done | sk_solve].

(** *** Connection state changes *)

Lemma SessionsInv_forget h h' c :
  senderPeerConnection h' = senderPeerConnection h →
  receiverPeerConnections h' = delete c (receiverPeerConnections h) →
  sites h' = sites h →
  SessionsInv h → SessionsInv h'.
Proof.
  intros Hs Hr Hp [I0 I1 I9]. split; rewrite ?Hs, ?Hr, ?Hp; auto.
  intros cid r [_ ?]%lookup_delete_Some. auto.
Qed.

Lemma onconnectionstatechange_inv r s h :
  SessionsInv h → SessionsInv (onconnectionstatechange r s h).
Proof.
  intros Hinv. unfold onconnectionstatechange.
  repeat case_match; try done.
  all: try inv_by_skeleton.
  eapply SessionsInv_forget; [..|done]; simpl; [done|done|].
  by apply (sites_updPC (pc_setState s)).
Qed.

(** *** The handlers that may reach createReceiverConnection *)

Lemma foldl_createReceiver_inv (P : Hub → ClientId → bool) l h :
  SessionsInv h →
  SessionsInv (foldl (λ acc cid, if P acc cid
                                 then createReceiverConnection cid acc
                                 else acc) h l).
Proof.
  revert h. induction l as [|c l IH]; intros h Hinv; simpl; [done|].
  apply IH. destruct (P h c); [|done]. by apply createReceiverConnection_inv.
Qed.

Lemma processLiveTrack_inv t s c h :
  SessionsInv h → SessionsInv (processLiveTrack t s c h).
Proof.
  intros Hinv. unfold processLiveTrack.
  apply (foldl_createReceiver_inv
           (λ acc clientId,
              negb (bool_decide (is_Some (receiverPeerConnections acc !! clientId)))
              && bool_decide (clientId ≠ c))).
  eapply SessionsInv_skeleton; [|done].
  by rewrite skeleton_monitorTrack.
Qed.

Lemma handleTrackReceived_inv t s c h :
  SessionsInv h → SessionsInv (handleTrackReceived t s c h).
Proof.
  intros Hinv. unfold handleTrackReceived. case_match.
  - inv_by_skeleton.
  - by apply processLiveTrack_inv.
Qed.

Lemma waitLive_tick_inv t s c n h :
  SessionsInv h → SessionsInv (waitLive_tick t s c n h).
Proof.
  intros Hinv. unfold waitLive_tick. repeat case_match; try done.
  - by apply processLiveTrack_inv.
  - inv_by_skeleton.
Qed.

Lemma ontrack_inv c t s h : SessionsInv h → SessionsInv (ontrack c t s h).
Proof.
  intros Hinv. unfold ontrack. case_match.
  - inv_by_skeleton.
  - by apply handleTrackReceived_inv.
Qed.

Lemma checkTrack_tick_inv t s c n h :
  SessionsInv h → SessionsInv (checkTrack_tick t s c n h).
Proof.
  intros Hinv. unfold checkTrack_tick.
  set (h1 := if bool_decide (readyStateOf h t = RSlive)
             then handleTrackReceived t s c h else h).
  assert (SessionsInv h1) as Hinv1.
  { subst h1. destruct (bool_decide _); [by apply handleTrackReceived_inv|done]. }
  clearbody h1. destruct (_ || _); [done|inv_by_skeleton].
Qed.

Lemma handleOffer_resume_inv c made o ok h :
  SessionsInv h → SessionsInv (handleOffer_resume c made o ok h).
Proof.
  intros Hinv. unfold handleOffer_resume.
  destruct (pcs h !! made) as [pc|]; [|inv_by_skeleton].
  case_match; [|inv_by_skeleton].
  assert (SessionsInv (updPC (pc_setRemote o) made h)) as Hinv0.
  { inv_by_skeleton. }
  destruct (senderPeerConnection (updPC (pc_setRemote o) made h)) as [spc|];
    [|inv_by_skeleton].
  assert (SessionsInv (updPC (pc_setLocal (HubAnswer spc)) spc
                         (updPC (pc_setRemote o) made h))) as Hinv1.
  { inv_by_skeleton. }
  match goal with
  | |- SessionsInv (logEv _ ?X) => apply (SessionsInv_skeleton X); [done|]
  end.
  destruct (liveOf _ _); [done|]. by apply handleTrackReceived_inv.
Qed.

Lemma track_event_inv r t s h :
  SessionsInv h → SessionsInv (track_event r t s h).
Proof.
  intros Hinv. unfold track_event. repeat case_match; try done.
  by apply ontrack_inv.
Qed.

Lemma fire_inv tm h : SessionsInv h → SessionsInv (fire tm h).
Proof.
  intros Hinv. destruct tm; simpl.
  - by apply createReceiverConnection_inv.
  - by apply handleOffer_resume_inv.
  - by apply checkTrack_tick_inv.
  - by apply waitLive_tick_inv.
  - eapply SessionsInv_skeleton; [|done]. apply skeleton_monitorTrack.
  - pose proof (skeleton_checkInterval_tick m checkCount h) as Hsk.
    destruct (checkInterval_tick m checkCount h) as [h' [n'|]]; simpl in *;
      inv_by_skeleton.
  - eapply SessionsInv_skeleton; [|done]. apply skeleton_receiverWait_tick.
Qed.

Lemma step_inv h op : SessionsInv h → SessionsInv (step h op).
Proof.
  intros Hinv. destruct op; simpl.
  - eapply SessionsInv_skeleton; [|done]. apply skeleton_handleConnection.
  - by apply handleDisconnect_inv.
  - inv_by_skeleton.
  - by apply handleDisconnect_inv.
  - by apply handleOffer_inv.
  - eapply SessionsInv_skeleton; [|done]. apply skeleton_handleAnswer.
  - eapply SessionsInv_skeleton; [|done]. apply skeleton_handleIceCandidate.
  - destruct (timers h !! i); [|done]. apply fire_inv.
    inv_by_skeleton.
  - by apply track_event_inv.
  - eapply SessionsInv_skeleton; [|done]. apply skeleton_track_update.
  - eapply SessionsInv_skeleton; [|done]. apply skeleton_addReceiver.
  - by apply onconnectionstatechange_inv.
  - eapply SessionsInv_skeleton; [|done]. apply skeleton_onicecandidate.
Qed.

Lemma reachable_inv h : reachable h → SessionsInv h.
Proof.
  induction 1 as [w|h op _ IH]; [apply SessionsInv_init|by apply step_inv].
Qed.


(** ** At most one producer session *)

Lemma is_open_sender_site pc :
  is_open_sender pc = true ↔ ∃ cid, site_of pc = (SenderSite cid, false).
Proof.
  unfold is_open_sender, site_of. destruct (pc_site pc), (pc_closed pc); simpl.
  all: split; [intros; simplify_eq; eauto | intros [? ?]; simplify_eq; done].
Qed.

Lemma elem_of_openProducerSessions h r :
  r ∈ openProducerSessions h ↔ ∃ cid, sites h !! r = Some (SenderSite cid, false).
Proof.
  unfold openProducerSessions. rewrite list_elem_of_filter, elem_of_seq.
  rewrite sites_lookup. split.
  - intros [Hr _]. destruct (pcs h !! r) as [pc|]; simplify_eq/=.
    apply is_open_sender_site in Hr as [cid ->]. eauto.
  - intros [cid Hr]. destruct (pcs h !! r) as [pc|] eqn:Hpc; simplify_eq/=.
    split.
    + f_equal. apply is_open_sender_site. eauto.
    + apply lookup_lt_Some in Hpc. lia.
Qed.

Lemma NoDup_openProducerSessions h : NoDup (openProducerSessions h).
Proof. apply NoDup_filter, NoDup_seq. Qed.

Lemma NoDup_only (l : list nat) r : NoDup l → (∀ x, x ∈ l ↔ x = r) → l = [r].
Proof.
  intros Hnd Hl. destruct l as [|a l].
  - pose proof (proj2 (Hl r) eq_refl) as Hr. by apply elem_of_nil in Hr.
  - assert (a = r) as -> by (apply Hl; left).
    destruct l as [|b l]; [done|].
    assert (b = r) as -> by (apply Hl; right; left).
    apply NoDup_cons in Hnd as [Hnd _]. destruct Hnd. left.
Qed.

Lemma openProducerSessions_inv h :
  SessionsInv h → openProducerSessions h = option_list (senderPeerConnection h).
Proof.
  intros [I0 I1 _]. destruct (senderPeerConnection h) as [r|] eqn:Hs; simpl.
  - apply NoDup_only; [apply NoDup_openProducerSessions|].
    intros x. rewrite elem_of_openProducerSessions. split.
    + intros [cid Hx%I1]. congruence.
    + intros ->. by apply I0.
  - destruct (openProducerSessions h) as [|x l] eqn:Hl; [done|].
    assert (x ∈ openProducerSessions h) as Hx by (rewrite Hl; left).
    apply elem_of_openProducerSessions in Hx as [cid Hx%I1]. congruence.
Qed.

(** C1. After any sequence of hub operations the open producer connections
    are exactly the registered one, so there is at most one; and a producer
    offer arriving while a producer session is registered closes that
    connection and then creates the new one, in this order, after which the
    new connection is the only open producer connection. *)
Theorem C1_single_producer_session w ops :
  let h := run (init w) ops in
  openProducerSessions h = option_list (senderPeerConnection h) ∧
  length (openProducerSessions h) ≤ 1 ∧
  (∀ client offer ok old,
     wrtc h = true →
     senderPeerConnection h = Some old →
     let h' := step h (Offer client offer ok) in
     let new := length (pcs h) in
     log h' = log h ++ [PcClosed old; PcCreated new] ∧
     pc_closed <$> pcs h' !! old = Some true ∧
     senderPeerConnection h' = Some new ∧
     new ≠ old ∧
     openProducerSessions h' = [new]).
Proof.
  intros h.
  assert (SessionsInv h) as Hinv
    by apply reachable_inv, reachable_run, reachable_init.
  pose proof (openProducerSessions_inv h Hinv) as Hopen.
  split; [done|]. split.
  { rewrite Hopen. destruct (senderPeerConnection h); simpl; lia. }
  intros client offer ok old Hw Hold. cbv zeta.
  change (step h (Offer client offer ok)) with (handleOffer client offer ok h).
  destruct (handleOffer_effect client offer ok h Hw)
    as (Hs & _ & _ & Hp & Hl & _).
  set (h' := handleOffer client offer ok h) in *.
  set (new := length (pcs h)) in *.
  assert (SessionsInv h') as Hinv' by by apply handleOffer_inv.
  destruct (inv_sender_open h Hinv old Hold) as [cid Hsite].
  assert (old < new) as Hlt.
  { unfold new. rewrite <- sites_length. by eapply lookup_lt_Some. }
  rewrite Hold in Hp, Hl. simpl in Hp, Hl.
  repeat split.
  - done.
  - assert (sites h' !! old = Some (SenderSite cid, true)) as Hc.
    { rewrite Hp, lookup_app_l by (rewrite length_alter, sites_length; lia).
      by rewrite list_lookup_alter_eq, Hsite. }
    rewrite sites_lookup in Hc. unfold site_of in Hc.
    destruct (pcs h' !! old) as [pc|]; simpl in *; [|done]. congruence.
  - done.
  - lia.
  - rewrite (openProducerSessions_inv h' Hinv'), Hs. done.
Qed.

(** The offer handler on a concrete run: a second producer supersedes the
    first. *)
Lemma C1_single_producer_session_witness :
  let h := run (init true) [Connection "A"; Offer "A" (ClientSDP "a") true] in
  let h' := step h (Offer "B" (ClientSDP "b") true) in
  log h' = log h ++ [PcClosed 0; PcCreated 1] ∧
  pc_closed <$> pcs h' !! 0 = Some true ∧
  senderPeerConnection h' = Some 1 ∧
  1 ≠ 0 ∧
  openProducerSessions h' = [1].
Proof.
  exact (proj2 (proj2 (C1_single_producer_session true
                         [Connection "A"; Offer "A" (ClientSDP "a") true]))
               "B" (ClientSDP "b") true 0 eq_refl eq_refl).
Defined.

(** ** One consumer connection per client *)

(** C9. After any sequence of hub operations every entry of the consumer map
    is an open connection made for the client it is registered under, so two
    clients never share a connection and the map holds no closed connection;
    and creating a consumer session for a client that already has one closes
    the existing connection first, then creates the new one and overwrites the
    entry, after which the closed connection is registered under no client. *)
Theorem C9_one_consumer_connection_per_client w ops :
  let h := run (init w) ops in
  (∀ cid r, receiverPeerConnections h !! cid = Some r →
            sites h !! r = Some (ReceiverSite cid, false)) ∧
  (∀ c1 c2 r, receiverPeerConnections h !! c1 = Some r →
              receiverPeerConnections h !! c2 = Some r → c1 = c2) ∧
  (∀ c old,
     wrtc h = true → c ∈ connections h →
     receiverPeerConnections h !! c = Some old →
     let h' := createReceiverConnection c h in
     let new := length (pcs h) in
     new ≠ old ∧
     receiverPeerConnections h' = <[c := new]> (receiverPeerConnections h) ∧
     sites h' !! old = Some (ReceiverSite c, true) ∧
     sites h' !! new = Some (ReceiverSite c, false) ∧
     (∀ cid, receiverPeerConnections h' !! cid ≠ Some old) ∧
     log h' = log h ++ [PcClosed old; PcCreated new;
                        Emit c (webrtc_offer (HubOffer new))]).
Proof.
  intros h.
  assert (SessionsInv h) as Hinv
    by apply reachable_inv, reachable_run, reachable_init.
  pose proof (inv_receivers h Hinv) as I9.
  split; [done|]. split.
  { intros c1 c2 r H1%I9 H2%I9. congruence. }
  intros c old Hw Hc Hold. cbv zeta.
  destruct (createReceiverConnection_effect c h Hw Hc)
    as (_ & Hr & Hp & Hl & _).
  set (h' := createReceiverConnection c h) in *.
  set (new := length (pcs h)) in *.
  assert (SessionsInv h') as Hinv' by by apply createReceiverConnection_inv.
  rewrite Hold in Hp, Hl. simpl in Hp, Hl.
  pose proof (I9 c old Hold) as Hsite.
  assert (old < new) as Hlt.
  { unfold new. rewrite <- sites_length. by eapply lookup_lt_Some. }
  assert (sites h' !! old = Some (ReceiverSite c, true)) as Hc'.
  { rewrite Hp, lookup_app_l by (rewrite length_alter, sites_length; lia).
    by rewrite list_lookup_alter_eq, Hsite. }
  repeat split; try done.
  - lia.
  - rewrite Hp. unfold new. rewrite <- sites_length.
    apply lookup_snoc_new, length_alter.
  - intros cid Hcid. apply (inv_receivers h' Hinv') in Hcid. congruence.
Qed.

(** A consumer whose session is created twice. *)
Lemma C9_one_consumer_connection_per_client_witness :
  let h := run (init true)
             [Connection "P"; Offer "P" (ClientSDP "p") true;
              TrackUpdate 0 (mkTrack video RSlive true) false; NewReceiver 0 0;
              Fire 0; Connection "A"; Fire 1] in
  let h' := createReceiverConnection "A" h in
  2 ≠ 1 ∧
  receiverPeerConnections h' = <[ "A" := 2 ]> (receiverPeerConnections h) ∧
  sites h' !! 1 = Some (ReceiverSite "A", true) ∧
  sites h' !! 2 = Some (ReceiverSite "A", false) ∧
  (∀ cid, receiverPeerConnections h' !! cid ≠ Some 1) ∧
  log h' = log h ++ [PcClosed 1; PcCreated 2; Emit "A" (webrtc_offer (HubOffer 2))].
Proof.
  refine (proj2 (proj2 (C9_one_consumer_connection_per_client true
                          [Connection "P"; Offer "P" (ClientSDP "p") true;
                           TrackUpdate 0 (mkTrack video RSlive true) false;
                           NewReceiver 0 0; Fire 0; Connection "A"; Fire 1]))
                "A" 1 eq_refl _ eq_refl).
  apply (bool_decide_unpack _). vm_compute. exact I.
Defined.


(** ** Disconnection *)

Lemma handleDisconnect_pcs c h :
  pcs (handleDisconnect c h) =
  close_pcs (receiverPeerConnections h !! c)
            (close_pcs (producerSessionOf c h) (pcs h)).
Proof.
  unfold handleDisconnect, producerSessionOf. simpl.
  destruct (senderPeerConnection h) as [spc|]; simpl;
    [destruct (bool_decide (senderClientId h = Some c)); simpl|];
    by destruct (receiverPeerConnections h !! c).
Qed.

Lemma close_pcs_lookup_ne o l r : o ≠ Some r → close_pcs o l !! r = l !! r.
Proof.
  destruct o as [old|]; simpl; [|done].
  intros Hne. apply list_lookup_alter_ne. congruence.
Qed.

Lemma close_pcs_closed l r (pc : RTCPeerConnection) o :
  l !! r = Some pc → pc_closed pc = true ∨ o = Some r →
  pc_closed <$> close_pcs o l !! r = Some true.
Proof.
  intros Hr Hc. destruct o as [old|]; simpl.
  - rewrite list_lookup_alter. destruct (decide (old = r)) as [->|Hne].
    + by rewrite Hr.
    + rewrite Hr. simpl. destruct Hc as [->|?]; [done|congruence].
  - rewrite Hr. simpl. by destruct Hc as [->|?].
Qed.

Lemma sites_lookup_pc h r s b :
  sites h !! r = Some (s, b) →
  ∃ pc, pcs h !! r = Some pc ∧ pc_site pc = s ∧ pc_closed pc = b.
Proof.
  rewrite sites_lookup. destruct (pcs h !! r) as [pc|]; [|done].
  unfold site_of. simpl. intros [= <- <-]. eauto.
Qed.

(** C7 (amended). When a client disconnects after any sequence of hub
    operations, the consumer map loses exactly the entry of that client, whose
    connection is closed; the entries of all other clients and their
    connections are untouched.  If the client was the producer with a
    producer session, that session is closed and unregistered and the
    received stream is cleared; otherwise the producer session, the producer
    identity and the received stream are unchanged. *)
Theorem C7_disconnect_frame w ops client :
  let h := run (init w) ops in
  let h' := handleDisconnect client h in
  receiverPeerConnections h' = delete client (receiverPeerConnections h) ∧
  (∀ cid r, cid ≠ client → receiverPeerConnections h !! cid = Some r →
            receiverPeerConnections h' !! cid = Some r ∧
            pcs h' !! r = pcs h !! r) ∧
  (∀ r, receiverPeerConnections h !! client = Some r →
        pc_closed <$> pcs h' !! r = Some true) ∧
  (∀ spc, producerSessionOf client h = Some spc →
          senderPeerConnection h' = None ∧ senderClientId h' = None ∧
          receivedStream h' = None ∧
          pc_closed <$> pcs h' !! spc = Some true) ∧
  (producerSessionOf client h = None →
   senderPeerConnection h' = senderPeerConnection h ∧
   senderClientId h' = senderClientId h ∧
   receivedStream h' = receivedStream h ∧
   (∀ spc, senderPeerConnection h = Some spc → pcs h' !! spc = pcs h !! spc)) ∧
  log h' = log h ++ closed_ev (producerSessionOf client h)
                 ++ closed_ev (receiverPeerConnections h !! client).
Proof.
  intros h h'.
  assert (SessionsInv h) as [I0 I1 I9]
    by apply reachable_inv, reachable_run, reachable_init.
  destruct (handleDisconnect_effect client h) as (Hs & Hc & Hst & Hr & _ & Hl & _).
  pose proof (handleDisconnect_pcs client h) as Hp.
  fold h' in Hs, Hc, Hst, Hr, Hl, Hp.
  assert (Hprod : ∀ spc, producerSessionOf client h = Some spc →
                         senderPeerConnection h = Some spc).
  { unfold producerSessionOf. intros spc.
    destruct (senderPeerConnection h); [|done].
    by destruct (bool_decide (senderClientId h = Some client)). }
  split; [done|]. split; [|split; [|split; [|split]]].
  - intros cid r Hne Hcr. split.
    + by rewrite Hr, lookup_delete_ne.
    + pose proof (I9 _ _ Hcr) as Hsite.
      rewrite Hp, !close_pcs_lookup_ne; [done| |].
      * intros Hpr%Hprod. apply I0 in Hpr as [? ?]. congruence.
      * intros Hc'%I9. congruence.
  - intros r Hcr.
    destruct (sites_lookup_pc _ _ _ _ (I9 _ _ Hcr)) as (pc & Hpc & Hsite & _).
    rewrite Hp.
    assert (producerSessionOf client h ≠ Some r) as Hne.
    { intros Hpr%Hprod. apply I0 in Hpr as [? Hx].
      apply sites_lookup_pc in Hx as (? & ? & ? & _). congruence. }
    eapply close_pcs_closed; [|by right].
    by rewrite close_pcs_lookup_ne.
  - intros spc Hpr. rewrite Hpr in Hs, Hc, Hst. repeat split; try done.
    destruct (I0 _ (Hprod _ Hpr)) as [cid Hx].
    apply sites_lookup_pc in Hx as (pc & Hpc & Hsite & _).
    rewrite Hp, close_pcs_lookup_ne.
    + eapply close_pcs_closed; [done|by right].
    + intros Hcr%I9. apply sites_lookup_pc in Hcr as (? & ? & ? & _). congruence.
  - intros Hpr. rewrite Hpr in Hs, Hc, Hst, Hp. repeat split; try done.
    intros spc Hspc. rewrite Hp. simpl. apply close_pcs_lookup_ne.
    intros Hcr%I9. apply I0 in Hspc as [? ?]. congruence.
  - done.
Qed.

(** A producer that disconnects while other consumers are attached, and a
    consumer that disconnects while the producer is attached. *)
Lemma C7_disconnect_frame_witness :
  let h := run (init true)
             [Connection "P"; Offer "P" (ClientSDP "p") true;
              TrackUpdate 0 (mkTrack video RSlive true) false; NewReceiver 0 0;
              Fire 0; Connection "A"; Fire 1] in
  (let h' := handleDisconnect "P" h in
   senderPeerConnection h' = None ∧ senderClientId h' = None ∧
   receivedStream h' = None ∧ pc_closed <$> pcs h' !! 0 = Some true) ∧
  (let h' := handleDisconnect "A" h in
   senderPeerConnection h' = senderPeerConnection h ∧
   senderClientId h' = senderClientId h ∧
   receivedStream h' = receivedStream h ∧
   (∀ spc, senderPeerConnection h = Some spc → pcs h' !! spc = pcs h !! spc)).
Proof.
  split.
  - exact (proj1 (proj2 (proj2 (proj2
             (C7_disconnect_frame true
                [Connection "P"; Offer "P" (ClientSDP "p") true;
                 TrackUpdate 0 (mkTrack video RSlive true) false;
                 NewReceiver 0 0; Fire 0; Connection "A"; Fire 1] "P"))))
             0 eq_refl).
  - exact (proj1 (proj2 (proj2 (proj2 (proj2
             (C7_disconnect_frame true
                [Connection "P"; Offer "P" (ClientSDP "p") true;
                 TrackUpdate 0 (mkTrack video RSlive true) false;
                 NewReceiver 0 0; Fire 0; Connection "A"; Fire 1] "A")))))
             eq_refl).
Defined.

(** A client that connected while a stream was being relayed got a consumer
    session, and then became the producer: its disconnection as producer
    also removes its own entry from the consumer map. *)
Lemma C7_counterexample :
  let h := run (init true)
             [Connection "A"; Offer "A" (ClientSDP "a") true;
              TrackUpdate 0 (mkTrack video RSlive true) false; NewReceiver 0 0;
              Fire 0; Connection "B"; Fire 1;
              Offer "B" (ClientSDP "b") true] in
  producerSessionOf "B" h = Some 2 ∧
  receiverPeerConnections h !! "B" = Some 1 ∧
  pc_closed <$> pcs h !! 1 = Some false ∧
  receiverPeerConnections (step h (Disconnect "B")) !! "B" = None ∧
  pc_closed <$> pcs (step h (Disconnect "B")) !! 1 = Some true ∧
  ¬ (receiverPeerConnections (step h (Disconnect "B"))
     = receiverPeerConnections h).
Proof.
  repeat split; try reflexivity.
  intros Heq.
  assert (receiverPeerConnections
            (step (run (init true)
              [Connection "A"; Offer "A" (ClientSDP "a") true;
               TrackUpdate 0 (mkTrack video RSlive true) false; NewReceiver 0 0;
               Fire 0; Connection "B"; Fire 1;
               Offer "B" (ClientSDP "b") true]) (Disconnect "B")) !! "B"
          = Some 1) as Hx by (rewrite Heq; reflexivity).
  vm_compute in Hx. discriminate.
Qed.


(** ** Creating a consumer session *)

Lemma liveOf_live h ts t : t ∈ liveOf h ts → readyStateOf h t = RSlive ∧ t ∈ ts.
Proof. unfold liveOf. by rewrite list_elem_of_filter. Qed.

Lemma createReceiverConnection_timers c h :
  wrtc h = true → c ∈ connections h →
  timers (createReceiverConnection c h) =
  timers h ++ match receivedStream h with
              | Some stream =>
                  match liveOf h stream with
                  | [] => [TReceiverWait (length (pcs h)) c 0]
                  | _ :: _ => []
                  end
              | None => []
              end.
Proof.
  intros Hw Hc. unfold createReceiverConnection.
  rewrite Hw, bool_decide_eq_true_2 by done. simpl.
  unfold allocPC, liveOf, readyStateOf.
  destruct (receiverPeerConnections h !! c) as [old|]; simpl;
    rewrite ?length_alter;
    (destruct (receivedStream h) as [stream|]; simpl;
     [destruct (filter _ stream) as [|t ts]; simpl|]);
    by rewrite ?app_nil_r.
Qed.

(** The poll armed when the stream has no live track gives up after 100
    firings at the latest. *)
Lemma receiverWait_tick_bounded r c n h :
  99 ≤ n → timers (receiverWait_tick r c n h) = timers h.
Proof.
  intros Hn. unfold receiverWait_tick.
  destruct (liveOf h (default [] (receivedStream h))); simpl.
  - rewrite (bool_decide_eq_true_2 (100 ≤ S n)) by lia.
    by rewrite orb_true_r.
  - repeat case_match; done.
Qed.

(** C4 (amended). With the runtime loaded and the client connected,
    [createReceiverConnection] always creates a consumer connection, registers
    it under the client and sends its offer, whatever the liveness of the
    tracks of the received stream; it raises no error for a track that is not
    live.  The tracks bound to the new connection are exactly the tracks of
    the received stream that are live at that time, so none is bound when the
    stream is absent or has no live track; in the latter case a poll for a
    live track is armed, which gives up after 100 firings at the latest. *)
Theorem C4_createReceiverConnection_binds_live_only c h :
  wrtc h = true → c ∈ connections h →
  let h' := createReceiverConnection c h in
  let new := length (pcs h) in
  let stream := default [] (receivedStream h) in
  receiverPeerConnections h' !! c = Some new ∧
  sites h' !! new = Some (ReceiverSite c, false) ∧
  getSenders <$> pcs h' !! new = Some (liveOf h stream) ∧
  (∀ t, t ∈ liveOf h stream → readyStateOf h t = RSlive ∧ t ∈ stream) ∧
  log h' = log h ++ closed_ev (receiverPeerConnections h !! c)
                 ++ [PcCreated new; Emit c (webrtc_offer (HubOffer new))] ∧
  (liveOf h stream = [] →
   timers h' = timers h ++ match receivedStream h with
                           | Some _ => [TReceiverWait new c 0]
                           | None => []
                           end) ∧
  (∀ n h0, 99 ≤ n → timers (receiverWait_tick new c n h0) = timers h0).
Proof.
  intros Hw Hc. cbv zeta.
  destruct (createReceiverConnection_effect c h Hw Hc)
    as (_ & Hr & Hp & Hl & _ & _ & Hsend).
  split_and!.
  - by rewrite Hr, lookup_insert_eq.
  - rewrite Hp, <- sites_length. apply lookup_snoc_new, close_opt_length.
  - done.
  - intros t. apply liveOf_live.
  - done.
  - intros Hnone. rewrite createReceiverConnection_timers by done.
    destruct (receivedStream h) as [s|]; simpl in *; [|done].
    by rewrite Hnone.
  - intros n h0. apply receiverWait_tick_bounded.
Qed.

(** The producer was superseded, the runtime ended the track of the closed
    connection, and the stream the hub still holds has no live track when a
    consumer session is created for client C. *)
Lemma C4_createReceiverConnection_binds_live_only_witness :
  let h := run (init true)
             [Connection "A"; Offer "A" (ClientSDP "a") true;
              TrackUpdate 0 (mkTrack video RSlive true) false; NewReceiver 0 0;
              Fire 0; Connection "B"; Offer "B" (ClientSDP "b") true;
              TrackUpdate 0 (mkTrack video RSended true) false;
              Connection "C"] in
  let h' := createReceiverConnection "C" h in
  receiverPeerConnections h' !! "C" = Some 2 ∧
  sites h' !! 2 = Some (ReceiverSite "C", false) ∧
  getSenders <$> pcs h' !! 2 = Some (liveOf h (default [] (receivedStream h))) ∧
  (∀ t, t ∈ liveOf h (default [] (receivedStream h)) →
        readyStateOf h t = RSlive ∧ t ∈ default [] (receivedStream h)) ∧
  log h' = log h ++ closed_ev (receiverPeerConnections h !! "C")
                 ++ [PcCreated 2; Emit "C" (webrtc_offer (HubOffer 2))] ∧
  (liveOf h (default [] (receivedStream h)) = [] →
   timers h' = timers h ++ match receivedStream h with
                           | Some _ => [TReceiverWait 2 "C" 0]
                           | None => []
                           end) ∧
  (∀ n h0, 99 ≤ n → timers (receiverWait_tick 2 "C" n h0) = timers h0).
Proof.
  refine (C4_createReceiverConnection_binds_live_only "C"
            (run (init true)
               [Connection "A"; Offer "A" (ClientSDP "a") true;
                TrackUpdate 0 (mkTrack video RSlive true) false; NewReceiver 0 0;
                Fire 0; Connection "B"; Offer "B" (ClientSDP "b") true;
                TrackUpdate 0 (mkTrack video RSended true) false;
                Connection "C"]) eq_refl _).
  apply (bool_decide_unpack _). vm_compute. exact I.
Defined.

(** In that state the only track of the received stream is ended, and the
    consumer session is created and registered all the same: the log gains
    the creation and the offer and no error. *)
Lemma C4_counterexample :
  let h := run (init true)
             [Connection "A"; Offer "A" (ClientSDP "a") true;
              TrackUpdate 0 (mkTrack video RSlive true) false; NewReceiver 0 0;
              Fire 0; Connection "B"; Offer "B" (ClientSDP "b") true;
              TrackUpdate 0 (mkTrack video RSended true) false;
              Connection "C"] in
  receivedStream h = Some [0] ∧
  readyStateOf h 0 = RSended ∧
  In (TCreateReceiver "C" 500) (timers h) ∧
  receiverPeerConnections h !! "C" = None ∧
  let h' := createReceiverConnection "C" h in
  receiverPeerConnections h' !! "C" = Some 2 ∧
  pc_closed <$> pcs h' !! 2 = Some false ∧
  getSenders <$> pcs h' !! 2 = Some [] ∧
  log h' = log h ++ [PcCreated 2; Emit "C" (webrtc_offer (HubOffer 2))].
Proof.
  vm_compute. repeat split; auto.
Qed.


(** ** The search for a replacement track *)

Lemma videoTracks_video h r t : t ∈ videoTracks h r → isVideo h t = true.
Proof.
  unfold videoTracks. destruct (pcs h !! r); [|by intros ?%elem_of_nil].
  by intros [? _]%list_elem_of_filter.
Qed.

Lemma head_live_video h spc t ts :
  liveOf h (videoTracks h spc) = t :: ts →
  readyStateOf h t = RSlive ∧ isVideo h t = true.
Proof.
  intros Hl. assert (t ∈ liveOf h (videoTracks h spc)) as Ht by (rewrite Hl; left).
  apply liveOf_live in Ht as [? ?%videoTracks_video]. done.
Qed.

Lemma pickReplacement_elem cur l t : pickReplacement cur l = Some t → t ∈ l.
Proof.
  unfold pickReplacement.
  destruct (List.find _ l) as [t'|] eqn:Hf.
  - intros [= <-]. apply find_some in Hf as [Hin _]. by apply list_elem_of_In.
  - destruct l as [|a l]; simpl; [done|]. intros [= <-]. left.
Qed.

Lemma pickReplacement_None cur l : pickReplacement cur l = None → l = [].
Proof.
  unfold pickReplacement. destruct (List.find _ l); [done|].
  by destruct l.
Qed.

(** One firing that leaves the interval armed found the producer connection
    without a live video track, changed nothing and counted one attempt. *)
Lemma checkInterval_tick_armed m c h h' c' :
  checkInterval_tick m c h = (h', Some c') →
  h' = h ∧ c' = S c ∧ S c < 50 ∧
  ∃ spc, senderPeerConnection h = Some spc ∧ liveOf h (videoTracks h spc) = [].
Proof.
  unfold checkInterval_tick.
  destruct (senderPeerConnection h) as [spc|]; [|done].
  destruct (liveOf h (videoTracks h spc)) as [|t ts] eqn:Hl; [|done].
  case_bool_decide; [done|]. intros [= <- <-].
  split; [done|]. split; [done|]. split; [lia|eauto].
Qed.

Lemma checkInterval_tick_cleared m c h h' :
  c < 50 → checkInterval_tick m c h = (h', None) → cleared_by m (S c) h h'.
Proof.
  unfold checkInterval_tick, cleared_by. intros Hc.
  destruct (senderPeerConnection h) as [spc|]; [|intros [= <-]; by left].
  destruct (liveOf h (videoTracks h spc)) as [|t ts] eqn:Hl.
  - case_bool_decide; [|done]. intros [= <-].
    right; right. exists spc. split_and!; try done; lia.
  - intros [= <-]. right; left. exists spc, t, ts.
    destruct (head_live_video _ _ _ _ Hl). done.
Qed.

Lemma search_ticks_terminates m world fuel c :
  c + fuel = 50 → 0 < fuel →
  ∃ n h', search_ticks fuel m world c = Some (n, h') ∧
          c < n ≤ 50 ∧
          cleared_by m n (world (n - 1)) h' ∧
          ∀ k, c ≤ k < n - 1 →
               checkInterval_tick m k (world k) = (world k, Some (S k)).
Proof.
  revert c. induction fuel as [|fuel IH]; intros c Hsum Hpos; [lia|].
  simpl. destruct (checkInterval_tick m c (world c)) as [h' [c'|]] eqn:Htick.
  - apply checkInterval_tick_armed in Htick as Harm.
    destruct Harm as (-> & -> & Hlt & _).
    destruct (IH (S c)) as (n & h'' & Hrun & Hn & Hcl & Hbefore); [lia|lia|].
    exists n, h''. split_and!; [done|lia|lia|done|].
    intros k Hk. destruct (decide (k = c)) as [->|Hne]; [done|].
    apply Hbefore. lia.
  - exists (S c), h'. replace (S c - 1) with c by lia.
    split_and!; [done|lia|lia| |intros; lia].
    apply checkInterval_tick_cleared; [lia|done].
Qed.


(** C6. When [monitorTrack] finds the current track ended it scans the video
    tracks received on the producer connection for a live one and promotes it
    if there is one; otherwise it arms the polling interval.  Whatever states
    the hub is in at the successive firings, the interval is cleared after at
    most 50 firings: by promoting a live video track it found, by giving up
    at the 50th attempt and clearing the received stream, or because the
    producer connection is gone.  Every earlier firing found no live track
    and changed nothing. *)
Theorem C6_replacement_search_bounded m :
  (∀ h spc,
     senderPeerConnection h = Some spc →
     readyStateOf h (default 0 (monitors h !! m)) = RSended →
     match pickReplacement (default 0 (monitors h !! m))
                           (liveOf h (videoTracks h spc)) with
     | Some t =>
         monitorTrack m h = setTimer (TMonitor m 2000) (promote m t h) ∧
         receivedStream (monitorTrack m h) = Some [t] ∧
         readyStateOf h t = RSlive ∧ isVideo h t = true
     | None =>
         monitorTrack m h = setTimer (TSearch m 0) h ∧
         liveOf h (videoTracks h spc) = []
     end) ∧
  (∀ k h,
     fire (TSearch m k) h =
     match checkInterval_tick m k h with
     | (h', Some k') => setTimer (TSearch m k') h'
     | (h', None) => h'
     end) ∧
  (∀ world : nat → Hub,
     ∃ n h', search_ticks 50 m world 0 = Some (n, h') ∧
             1 ≤ n ≤ 50 ∧
             cleared_by m n (world (n - 1)) h' ∧
             ∀ k, k < n - 1 →
                  checkInterval_tick m k (world k) = (world k, Some (S k))).
Proof.
  split; [|split].
  - intros h spc Hs Hended. unfold monitorTrack. rewrite Hs, Hended. simpl.
    destruct (pickReplacement _ _) as [t|] eqn:Hpick.
    + split; [done|]. split; [done|].
      apply pickReplacement_elem, liveOf_live in Hpick as [? ?%videoTracks_video].
      done.
    + split; [done|]. by apply pickReplacement_None in Hpick.
  - done.
  - intros world.
    destruct (search_ticks_terminates m world 50 0) as (n & h' & Hrun & Hn & Hcl & Hk);
      [done|lia|].
    exists n, h'. split_and!; [done|lia|lia|done|].
    intros k Hlt. apply Hk. lia.
Qed.

(** The track stays ended and no live track ever appears: the 50th firing
    gives up and clears the stream. *)
Example search_gives_up :
  let h := run (init true)
             [Connection "P"; Offer "P" (ClientSDP "p") true;
              TrackUpdate 0 (mkTrack video RSlive true) false; NewReceiver 0 0;
              Fire 0; TrackUpdate 0 (mkTrack video RSended true) false] in
  receivedStream h = Some [0] ∧
  search_ticks 50 0 (λ _, h) 0 = Some (50, set_receivedStream None h).
Proof. split; vm_compute; reflexivity. Qed.

(** A live track appears at the fourth firing. *)
Example search_finds_late_track :
  let h := run (init true)
             [Connection "P"; Offer "P" (ClientSDP "p") true;
              TrackUpdate 0 (mkTrack video RSlive true) false; NewReceiver 0 0;
              Fire 0; TrackUpdate 0 (mkTrack video RSended true) false] in
  let h3 := run h [TrackUpdate 1 (mkTrack video RSlive true) false; NewReceiver 0 1] in
  (λ r, (r.1, receivedStream r.2)) <$>
    search_ticks 50 0 (λ k, if decide (k < 3) then h else h3) 0
  = Some (4, Some [1]).
Proof. vm_compute. reflexivity. Qed.


(** ** Promotion to the received stream *)

Lemma readyStateOf_tracks h h' t :
  tracks h' = tracks h → readyStateOf h' t = readyStateOf h t.
Proof. unfold readyStateOf. by intros ->. Qed.

Lemma stream_justified_trans D h h1 h2 :
  tracks h2 = tracks h1 →
  stream_justified D h h1 → stream_justified D h1 h2 → stream_justified D h h2.
Proof.
  unfold stream_justified. intros Ht H1 [H2|[H2|H2]]; [|by right; left|by right; right].
  rewrite H2. destruct H1 as [H1|[H1|(t & s & Hs & Hl & HD)]];
    [by left|by right; left|].
  right; right. exists t, s. by rewrite (readyStateOf_tracks _ _ _ Ht).
Qed.

Lemma stream_justified_mono (D D' : TrackRef → MediaStream → Prop) h h' :
  (∀ t s, D t s → D' t s) → stream_justified D h h' → stream_justified D' h h'.
Proof.
  unfold stream_justified. intros HD [H|[H|(t & s & Hs & Hl & [->|Hd])]].
  - by left.
  - by right; left.
  - right; right. exists t, [t]. auto.
  - right; right. exists t, s. auto.
Qed.

Lemma stream_justified_same D h h' :
  receivedStream h' = receivedStream h → stream_justified D h h'.
Proof. by left. Qed.

Lemma createReceiverConnection_neutral c h :
  receivedStream (createReceiverConnection c h) = receivedStream h ∧
  tracks (createReceiverConnection c h) = tracks h.
Proof.
  unfold createReceiverConnection, allocPC.
  repeat (case_match; simpl); done.
Qed.

Lemma foldl_createReceiver_neutral (P : Hub → ClientId → bool) l h :
  let h' := foldl (λ acc cid, if P acc cid
                              then createReceiverConnection cid acc
                              else acc) h l in
  receivedStream h' = receivedStream h ∧ tracks h' = tracks h.
Proof.
  revert h. induction l as [|c l IH]; intros h; simpl; [done|].
  destruct (IH (if P h c then createReceiverConnection c h else h)) as [-> ->].
  destruct (P h c); [|done]. apply createReceiverConnection_neutral.
Qed.

Lemma monitorTrack_stream D m h :
  tracks (monitorTrack m h) = tracks h ∧
  stream_justified D h (monitorTrack m h).
Proof.
  unfold monitorTrack.
  destruct (senderPeerConnection h) as [spc|]; [|by split; [|left]].
  assert (∀ t, pickReplacement (default 0 (monitors h !! m))
                 (liveOf h (videoTracks h spc)) = Some t →
               stream_justified D h (setTimer (TMonitor m 2000) (promote m t h)))
    as Hpick.
  { intros t [Hl _]%pickReplacement_elem%liveOf_live.
    right; right. exists t, [t]. split_and!; [done|exact Hl|by left]. }
  repeat case_match; simpl; (split; [done|]);
    first [by left | by right; left | by apply Hpick].
Qed.

Lemma checkInterval_tick_stream D m n h :
  tracks (checkInterval_tick m n h).1 = tracks h ∧
  stream_justified D h (checkInterval_tick m n h).1.
Proof.
  unfold checkInterval_tick.
  destruct (senderPeerConnection h) as [spc|]; [|by split; [|left]].
  destruct (liveOf h (videoTracks h spc)) as [|t ts] eqn:Hl; simpl.
  - case_bool_decide; simpl; (split; [done|]); [by right; left|by left].
  - split; [done|]. right; right. exists t, [t].
    destruct (head_live_video _ _ _ _ Hl) as [Hlive _].
    split_and!; [done|exact Hlive|by left].
Qed.

Lemma fire_onended_stream D hd h :
  tracks (fire_onended hd h) = tracks h ∧
  stream_justified D h (fire_onended hd h).
Proof.
  unfold fire_onended. destruct hd as [|m]; [by split; [|right; left]|].
  destruct (senderPeerConnection h) as [spc|]; [|by split; [|right; left]].
  destruct (liveOf h (videoTracks h spc)) as [|t ts] eqn:Hl; simpl.
  - by split; [|right; left].
  - split; [done|]. right; right. exists t, [t].
    destruct (head_live_video _ _ _ _ Hl) as [Hlive _].
    split_and!; [done|exact Hlive|by left].
Qed.

Lemma processLiveTrack_stream t streams c h :
  readyStateOf h t = RSlive →
  tracks (processLiveTrack t streams c h) = tracks h ∧
  stream_justified (first_of t streams) h (processLiveTrack t streams c h).
Proof.
  intros Hlive. unfold processLiveTrack.
  set (choice := match streams with Some (s :: _) => Some s | _ => Some [t] end).
  set (h1 := set_receivedStream choice h).
  set (m := length (monitors h1)).
  set (h3 := set_onended _ (set_monitors _ h1)).
  set (h4 := monitorTrack m h3).
  destruct (foldl_createReceiver_neutral
              (λ acc clientId,
                 negb (bool_decide (is_Some (receiverPeerConnections acc !! clientId)))
                 && bool_decide (clientId ≠ c)) (connections h4) h4) as [Hrs Htr].
  destruct (monitorTrack_stream (first_of t streams) m h3) as [Htr4 Hj].
  fold h4 in Htr4, Hj.
  split; [by rewrite Htr, Htr4|].
  eapply stream_justified_trans; [exact Htr| |by left].
  eapply stream_justified_trans; [exact Htr4| |exact Hj].
  right; right. subst choice. destruct streams as [[|s0 rest]|]; simpl.
  - exists t, [t]. split_and!; [done|exact Hlive|by left].
  - exists t, s0. split_and!; [done|exact Hlive|].
    right. split; [done|]. by exists rest.
  - exists t, [t]. split_and!; [done|exact Hlive|by left].
Qed.

Lemma handleTrackReceived_stream t streams c h :
  tracks (handleTrackReceived t streams c h) = tracks h ∧
  stream_justified (first_of t streams) h (handleTrackReceived t streams c h).
Proof.
  unfold handleTrackReceived. case_bool_decide as Hl.
  - by split; [|left].
  - apply processLiveTrack_stream.
    destruct (decide (readyStateOf h t = RSlive)); [done|]. by destruct Hl.
Qed.

Lemma waitLive_tick_stream t streams c n h :
  tracks (waitLive_tick t streams c n h) = tracks h ∧
  stream_justified (first_of t streams) h (waitLive_tick t streams c n h).
Proof.
  unfold waitLive_tick. case_bool_decide as Hl.
  - by apply processLiveTrack_stream.
  - destruct (_ || _); by split; [|left].
Qed.

Lemma ontrack_stream c t streams h :
  tracks (ontrack c t streams h) = tracks h ∧
  stream_justified (first_of t streams) h (ontrack c t streams h).
Proof.
  unfold ontrack. case_bool_decide.
  - by split; [|left].
  - apply handleTrackReceived_stream.
Qed.

Lemma checkTrack_tick_stream t streams c n h :
  tracks (checkTrack_tick t streams c n h) = tracks h ∧
  stream_justified (first_of t streams) h (checkTrack_tick t streams c n h).
Proof.
  unfold checkTrack_tick.
  set (h1 := if bool_decide (readyStateOf h t = RSlive)
             then handleTrackReceived t streams c h else h).
  assert (tracks h1 = tracks h ∧ stream_justified (first_of t streams) h h1)
    as [Htr Hj].
  { subst h1. destruct (bool_decide _); [apply handleTrackReceived_stream|].
    by split; [|left]. }
  clearbody h1. destruct (_ || _); [done|].
  split; [done|]. eapply stream_justified_trans; [|exact Hj|by left]. done.
Qed.

Lemma handleOffer_resume_stream c made o ok h :
  tracks (handleOffer_resume c made o ok h) = tracks h ∧
  stream_justified (λ _ _, False) h (handleOffer_resume c made o ok h).
Proof.
  unfold handleOffer_resume.
  destruct (pcs h !! made) as [pc|]; [|by split; [|left]].
  destruct (ok && negb (pc_closed pc)); [|by split; [|left]].
  destruct (senderPeerConnection _) as [spc|]; [|by split; [|left]].
  set (h1 := updPC (pc_setLocal _) spc _).
  destruct (liveOf h1 (videoTracks h1 spc)) as [|t ts]; [by split; [|left]|].
  destruct (handleTrackReceived_stream t None c h1) as [Htr Hj].
  split; [exact Htr|].
  apply (stream_justified_trans _ h h1 _); [exact Htr|by left|].
  eapply stream_justified_mono; [|exact Hj].
  intros ? ? [_ [? [=]]].
Qed.


Lemma fire_stream i tm h :
  timers h !! i = Some tm →
  stream_justified (delivered_with h (Fire i)) h (fire tm (set_timers (delete i) h)).
Proof.
  intros Hi. set (h0 := set_timers (delete i) h).
  change (stream_justified (delivered_with h (Fire i)) h0 (fire tm h0)).
  destruct tm as [cid d|cid made o ok|t str cid n|t str cid n|m d|m n|r cid n]; simpl.
  - left. apply createReceiverConnection_neutral.
  - eapply stream_justified_mono; [|apply handleOffer_resume_stream]. by intros ? ? [].
  - eapply stream_justified_mono; [|apply checkTrack_tick_stream].
    intros t' s [-> [rest ->]]. exists rest. right. exists i, cid, n. auto.
  - eapply stream_justified_mono; [|apply waitLive_tick_stream].
    intros t' s [-> [rest ->]]. exists rest. right. exists i, cid, n. auto.
  - apply monitorTrack_stream.
  - destruct (checkInterval_tick_stream (delivered_with h (Fire i)) m n h0) as [_ Hj].
    by destruct (checkInterval_tick m n h0) as [h' [n'|]].
  - left. unfold receiverWait_tick. repeat case_match; done.
Qed.

Lemma step_stream h op : stream_justified (delivered_with h op) h (step h op).
Proof.
  destruct op as [c|c|c|c|c o ok|c a ok|c cand ok|i|r t s|t trk notify|r t|r s|r cand];
    simpl.
  - left. unfold handleConnection. by case_match.
  - destruct (handleDisconnect_effect c h) as (_ & _ & Hst & _).
    destruct (producerSessionOf c h); [by right; left|by left].
  - by left.
  - destruct (handleDisconnect_effect c h) as (_ & _ & Hst & _).
    unfold handleConnectionReject.
    destruct (producerSessionOf c h); [by right; left|by left].
  - left. unfold handleOffer, allocPC. repeat case_match; done.
  - left. unfold handleAnswer. repeat case_match; done.
  - left. unfold handleIceCandidate, withRemoteDescription, addIceCandidate.
    repeat case_match; done.
  - destruct (timers h !! i) as [tm|] eqn:Hi; [|by left]. by apply fire_stream.
  - unfold track_event. repeat case_match; try by left.
    eapply stream_justified_mono; [|apply ontrack_stream].
    intros t' s' [-> [rest ->]]. exists rest. left. eauto.
  - unfold track_update. set (h1 := set_tracks _ h).
    change (stream_justified (delivered_with h (TrackUpdate t trk notify)) h1
              (if bool_decide (readyState trk = RSended) && notify
               then match onended h1 !! t with
                    | Some hd => fire_onended hd h1
                    | None => h1
                    end
               else h1)).
    destruct (_ && _); [|by left].
    destruct (onended h1 !! t) as [hd|]; [|by left].
    apply fire_onended_stream.
  - by left.
  - unfold onconnectionstatechange. repeat case_match; by (left + (right; left)).
  - left. unfold onicecandidate. repeat case_match; done.
Qed.

(** C8. A track that is not live when it arrives on the producer connection
    is not promoted: [ontrack] leaves the received stream as it is and arms a
    poll that holds the track; each firing of the poll that sees the track
    not live leaves the stream as it is; the firing that sees it live
    promotes it.  And no operation of the hub ever sets the received stream
    except from a track that is live at that moment: the stream is then that
    track alone or the first stream the runtime delivered with that track. *)
Theorem C8_promotion_only_when_live :
  (∀ c t streams h,
     readyStateOf h t ≠ RSlive →
     ontrack c t streams h =
       setTimer (TCheckTrack t streams c 0) (set_onended (<[t := HClear]>) h) ∧
     receivedStream (ontrack c t streams h) = receivedStream h) ∧
  (∀ c t streams n h,
     readyStateOf h t ≠ RSlive →
     receivedStream (checkTrack_tick t streams c n h) = receivedStream h ∧
     timers (checkTrack_tick t streams c n h) =
       if bool_decide (readyStateOf h t = RSended) || bool_decide (50 ≤ S n)
       then timers h
       else timers h ++ [TCheckTrack t streams c (S n)]) ∧
  (∀ c t streams n h,
     readyStateOf h t = RSlive →
     checkTrack_tick t streams c n h = processLiveTrack t streams c h) ∧
  (∀ h op, stream_justified (delivered_with h op) h (step h op)).
Proof.
  split_and!.
  - intros c t streams h Hl. unfold ontrack.
    by rewrite bool_decide_eq_true_2.
  - intros c t streams n h Hl. unfold checkTrack_tick.
    rewrite (bool_decide_eq_false_2 (readyStateOf h t = RSlive)) by done.
    rewrite (bool_decide_eq_false_2 (readyStateOf h t = RSlive)) by done.
    simpl. by destruct (_ || _).
  - intros c t streams n h Hl. unfold checkTrack_tick.
    rewrite (bool_decide_eq_true_2 (readyStateOf h t = RSlive)) by done.
    unfold handleTrackReceived.
    rewrite (bool_decide_eq_false_2 (readyStateOf h t ≠ RSlive)) by auto.
    destruct (processLiveTrack_stream t streams c h Hl) as [Htr _].
    rewrite (readyStateOf_tracks _ _ _ Htr), Hl.
    by rewrite (bool_decide_eq_true_2 (RSlive = RSlive)).
  - apply step_stream.
Qed.

(** A track that arrives before it is live, and becomes live between the
    second and the third firing of the poll. *)
Lemma C8_promotion_only_when_live_witness :
  let h := run (init true)
             [Connection "P"; Offer "P" (ClientSDP "p") true; Fire 0;
              TrackUpdate 7 (mkTrack video RSother true) false;
              NewReceiver 0 7] in
  receivedStream (ontrack "P" 7 (Some [[7]]) h) = receivedStream h ∧
  receivedStream (checkTrack_tick 7 (Some [[7]]) "P" 0 h) = receivedStream h ∧
  let h2 := step h (TrackUpdate 7 (mkTrack video RSlive true) false) in
  checkTrack_tick 7 (Some [[7]]) "P" 2 h2 = processLiveTrack 7 (Some [[7]]) "P" h2.
Proof.
  split; [|split].
  - refine (proj2 (proj1 C8_promotion_only_when_live "P" 7 (Some [[7]]) _ _)).
    vm_compute. discriminate.
  - refine (proj1 (proj1 (proj2 C8_promotion_only_when_live) "P" 7 (Some [[7]]) 0 _ _)).
    vm_compute. discriminate.
  - exact (proj1 (proj2 (proj2 C8_promotion_only_when_live))
             "P" 7 (Some [[7]]) 2
             (step (run (init true)
                      [Connection "P"; Offer "P" (ClientSDP "p") true; Fire 0;
                       TrackUpdate 7 (mkTrack video RSother true) false;
                       NewReceiver 0 7])
                   (TrackUpdate 7 (mkTrack video RSlive true) false))
             eq_refl).
Defined.

(** ** Admission on connection *)

(** C10. On every client connection the hub registers the client and emits
    [start-webrtc] to it in the same handler run, without waiting for a
    [connection-accept] message (a hub that has received nothing but the
    connection has already emitted it); when a received stream exists it arms
    the 500 ms timer whose firing is [createReceiverConnection] for that
    client, and arms nothing otherwise.  Sessions and stream are untouched. *)
Theorem C10_handleConnection_admits client h :
  let h' := handleConnection client h in
  client ∈ connections h' ∧
  connections h' = conn_set client (connections h) ∧
  log h' = log h ++ [Emit client start_webrtc] ∧
  timers h' = match receivedStream h with
              | Some _ => timers h ++ [TCreateReceiver client 500]
              | None => timers h
              end ∧
  fire (TCreateReceiver client 500) = createReceiverConnection client ∧
  log (run (init (wrtc h)) [Connection client]) = [Emit client start_webrtc] ∧
  senderPeerConnection h' = senderPeerConnection h ∧
  receiverPeerConnections h' = receiverPeerConnections h ∧
  receivedStream h' = receivedStream h ∧
  pcs h' = pcs h.
Proof.
  unfold handleConnection, handleConnectionAccept. simpl.
  destruct (receivedStream h) as [s|] eqn:Hs; simpl.
  all: repeat split; try done.
  all: unfold conn_set; case_decide; set_solver.
Qed.

(** ** Routing of inbound candidates *)

(** The first branch of [handleIceCandidate] does not look at the client: once
    the producer connection has a remote description, a candidate from any
    client is given to it. *)
Lemma handleIceCandidate_any_client client candidate ok h spc :
  wrtc h = true →
  senderPeerConnection h = Some spc →
  hasRemoteDescription h spc = true →
  handleIceCandidate client candidate ok h = addIceCandidate spc candidate ok h.
Proof.
  intros Hw Hs Hr. unfold handleIceCandidate, withRemoteDescription.
  by rewrite Hw, Hs, Hr.
Qed.

(** C3 (amended). With the runtime loaded: a candidate from the producer
    client is applied to the producer session when that session exists and
    has its remote description; when no producer session with a remote
    description exists, a candidate is applied to the consumer session of its
    client if that session exists and has its remote description; and when
    neither connection qualifies the candidate is dropped, the only effect
    being the warning. *)
Theorem C3_handleIceCandidate_routing client candidate ok h :
  wrtc h = true →
  let h' := handleIceCandidate client candidate ok h in
  (∀ spc, senderClientId h = Some client →
          senderPeerConnection h = Some spc →
          hasRemoteDescription h spc = true →
          h' = addIceCandidate spc candidate ok h) ∧
  (∀ r, (∀ spc, senderPeerConnection h = Some spc →
                hasRemoteDescription h spc = false) →
        receiverPeerConnections h !! client = Some r →
        hasRemoteDescription h r = true →
        h' = addIceCandidate r candidate ok h) ∧
  ((∀ spc, senderPeerConnection h = Some spc →
           hasRemoteDescription h spc = false) →
   (∀ r, receiverPeerConnections h !! client = Some r →
         hasRemoteDescription h r = false) →
   h' = logEv (WarnNoPeerConnection client candidate) h).
Proof.
  intros Hw h'. subst h'.
  unfold handleIceCandidate, withRemoteDescription. rewrite Hw. simpl.
  assert (Hsender : (∀ spc, senderPeerConnection h = Some spc →
                            hasRemoteDescription h spc = false) →
                    match senderPeerConnection h with
                    | Some r => if hasRemoteDescription h r then Some r else None
                    | None => None
                    end = None).
  { intros Hno. destruct (senderPeerConnection h) as [spc|]; [|done].
    by rewrite (Hno spc eq_refl). }
  split; [|split].
  - intros spc _ -> ->. done.
  - intros r Hno Hr Hrd. by rewrite (Hsender Hno), Hr, Hrd.
  - intros Hno Hnr. rewrite (Hsender Hno).
    destruct (receiverPeerConnections h !! client) as [r|]; [|done].
    by rewrite (Hnr r eq_refl).
Qed.


(** ** Candidates and remote descriptions *)

Lemma benign_keeps g pc :
  benign g → candidates_after_remote pc → candidates_after_remote (g pc).
Proof.
  unfold candidates_after_remote. intros Hg [He|Hr]; destruct (Hg pc) as [Hc Hd].
  - left. congruence.
  - right. auto.
Qed.

Lemma candidates_alter g r l :
  benign g → Forall candidates_after_remote l →
  Forall candidates_after_remote (alter g r l).
Proof. intros Hg Hl. apply Forall_alter; [done|]. intros. by apply benign_keeps. Qed.

Lemma candidates_snoc s l :
  Forall candidates_after_remote l →
  Forall candidates_after_remote (l ++ [newPC s]).
Proof.
  intros Hl. apply Forall_app_2; [done|]. apply Forall_singleton. by left.
Qed.

Lemma benign_close : benign pc_close.
Proof. done. Qed.
Lemma benign_setRemote d : benign (pc_setRemote d).
Proof. intros pc. split; [done|]. simpl. eauto. Qed.
Lemma benign_setLocal d : benign (pc_setLocal d).
Proof. done. Qed.
Lemma benign_addTracks ts : benign (pc_addTracks ts).
Proof. done. Qed.
Lemma benign_addReceiver t : benign (pc_addReceiver t).
Proof. done. Qed.
Lemma benign_setState s : benign (pc_setState s).
Proof. done. Qed.

Create HintDb benign.
#[local] Hint Resolve benign_close benign_setRemote benign_setLocal
  benign_addTracks benign_addReceiver benign_setState : benign.

Ltac store_solve :=
  unfold CandidatesInv in *; simpl;
  repeat first
    [ assumption
    | apply candidates_snoc
    | apply candidates_alter; [solve [auto with benign]|] ].

Ltac cand_solve := repeat (case_match; simpl); store_solve.

Lemma addIceCandidate_candidates r c ok h :
  hasRemoteDescription h r = true →
  CandidatesInv h → CandidatesInv (addIceCandidate r c ok h).
Proof.
  intros (pc & Hpc & Hrd)%hasRemoteDescription_true Hinv.
  unfold addIceCandidate, CandidatesInv in *. destruct ok; simpl; [|done].
  apply Forall_alter; [done|]. intros pc' Hpc' _. simplify_eq. by right.
Qed.

Lemma handleIceCandidate_candidates c cand ok h :
  CandidatesInv h → CandidatesInv (handleIceCandidate c cand ok h).
Proof.
  intros Hinv. unfold handleIceCandidate, withRemoteDescription.
  repeat case_match; simplify_eq; try done; by apply addIceCandidate_candidates.
Qed.

Lemma createReceiverConnection_candidates c h :
  CandidatesInv h → CandidatesInv (createReceiverConnection c h).
Proof. intros Hinv. unfold createReceiverConnection, allocPC. cand_solve. Qed.

Lemma monitorTrack_pcs m h : pcs (monitorTrack m h) = pcs h.
Proof. unfold monitorTrack. repeat (case_match; simpl); done. Qed.

Lemma foldl_createReceiver_candidates (P : Hub → ClientId → bool) l h :
  CandidatesInv h →
  CandidatesInv (foldl (λ acc cid, if P acc cid
                                   then createReceiverConnection cid acc
                                   else acc) h l).
Proof.
  revert h. induction l as [|c l IH]; intros h Hinv; simpl; [done|].
  apply IH. destruct (P h c); [|done]. by apply createReceiverConnection_candidates.
Qed.

Lemma processLiveTrack_candidates t s c h :
  CandidatesInv h → CandidatesInv (processLiveTrack t s c h).
Proof.
  intros Hinv. unfold processLiveTrack.
  apply (foldl_createReceiver_candidates
           (λ acc clientId,
              negb (bool_decide (is_Some (receiverPeerConnections acc !! clientId)))
              && bool_decide (clientId ≠ c))).
  unfold CandidatesInv. by rewrite monitorTrack_pcs.
Qed.

Lemma handleTrackReceived_candidates t s c h :
  CandidatesInv h → CandidatesInv (handleTrackReceived t s c h).
Proof.
  intros Hinv. unfold handleTrackReceived.
  case_match; [done|by apply processLiveTrack_candidates].
Qed.

Lemma fire_candidates tm h : CandidatesInv h → CandidatesInv (fire tm h).
Proof.
  intros Hinv.
  destruct tm as [cid d|cid made o ok|t str cid n|t str cid n|m d|m n|r cid n]; simpl.
  - by apply createReceiverConnection_candidates.
  - unfold handleOffer_resume.
    destruct (pcs h !! made) as [pc|]; [|done].
    destruct (ok && negb (pc_closed pc)); [|done].
    destruct (senderPeerConnection _) as [spc|]; [|store_solve].
    set (h1 := updPC (pc_setLocal _) spc _).
    assert (CandidatesInv h1) as Hinv1 by (subst h1; store_solve).
    clearbody h1. destruct (liveOf h1 _); [done|].
    by apply handleTrackReceived_candidates.
  - unfold checkTrack_tick.
    set (h1 := if bool_decide (readyStateOf h t = RSlive)
               then handleTrackReceived t str cid h else h).
    assert (CandidatesInv h1) as Hinv1.
    { subst h1. destruct (bool_decide _); [|done].
      by apply handleTrackReceived_candidates. }
    clearbody h1. by destruct (_ || _).
  - unfold waitLive_tick. repeat case_match; try done.
    by apply processLiveTrack_candidates.
  - unfold CandidatesInv. by rewrite monitorTrack_pcs.
  - assert (pcs (checkInterval_tick m n h).1 = pcs h) as Hp.
    { unfold checkInterval_tick. repeat (case_match; simpl); done. }
    unfold CandidatesInv.
    destruct (checkInterval_tick m n h) as [h' [n'|]]; simpl in *; by rewrite Hp.
  - unfold receiverWait_tick. cand_solve.
Qed.

Lemma step_candidates h op : CandidatesInv h → CandidatesInv (step h op).
Proof.
  intros Hinv.
  destruct op as [c|c|c|c|c o ok|c a ok|c cand ok|i|r t s|t trk notify|r t|r s|r cand];
    simpl.
  - unfold handleConnection. cand_solve.
  - unfold handleDisconnect. cand_solve.
  - done.
  - unfold handleConnectionReject, handleDisconnect. cand_solve.
  - unfold handleOffer, allocPC. cand_solve.
  - unfold handleAnswer. cand_solve.
  - by apply handleIceCandidate_candidates.
  - destruct (timers h !! i); [|done]. by apply fire_candidates.
  - unfold track_event, ontrack. repeat case_match; try done.
    by apply handleTrackReceived_candidates.
  - unfold track_update, fire_onended. cand_solve.
  - store_solve.
  - unfold onconnectionstatechange. cand_solve.
  - unfold onicecandidate. cand_solve.
Qed.

Lemma run_candidates w ops : CandidatesInv (run (init w) ops).
Proof.
  assert (∀ h, CandidatesInv h → CandidatesInv (run h ops)) as Hrun.
  { induction ops as [|op ops IH]; intros h Hh; [done|].
    apply IH. by apply step_candidates. }
  apply Hrun. constructor.
Qed.

(** A producer client trickles a candidate while the hub is still setting the
    remote description of the producer connection: the producer session
    exists, yet the candidate is not applied to it and is dropped. *)
Lemma C3_counterexample :
  let h := run (init true) [Connection "P"; Offer "P" (ClientSDP "p") true] in
  senderClientId h = Some "P" ∧
  senderPeerConnection h = Some 0 ∧
  pc_closed <$> pcs h !! 0 = Some false ∧
  let h' := step h (IceCandidate "P" "cand" true) in
  h' = logEv (WarnNoPeerConnection "P" "cand") h ∧
  iceCandidates <$> pcs h' !! 0 = Some [].
Proof. vm_compute. repeat split; reflexivity. Qed.

Lemma C3_handleIceCandidate_routing_witness :
  let h := run (init true)
             [Connection "P"; Offer "P" (ClientSDP "p") true; Fire 0] in
  handleIceCandidate "P" "cand" true h = addIceCandidate 0 "cand" true h.
Proof.
  exact (proj1 (C3_handleIceCandidate_routing "P" "cand" true
                  (run (init true)
                     [Connection "P"; Offer "P" (ClientSDP "p") true; Fire 0])
                  eq_refl)
               0 eq_refl eq_refl eq_refl).
Defined.

(** The identity of the sending client is not consulted: a consumer whose own
    session has its remote description sends a candidate, and it is given to
    the producer connection. *)
Example consumer_candidate_reaches_producer :
  let h := run (init true)
             [Connection "P"; Offer "P" (ClientSDP "p") true;
              TrackUpdate 0 (mkTrack video RSlive true) false; NewReceiver 0 0;
              Fire 0; Connection "C"; Fire 1; Answer "C" (ClientSDP "c") true] in
  senderClientId h = Some "P" ∧
  receiverPeerConnections h !! "C" = Some 1 ∧
  hasRemoteDescription h 1 = true ∧
  let h' := step h (IceCandidate "C" "cand" true) in
  iceCandidates <$> pcs h' !! 0 = Some ["cand"] ∧
  iceCandidates <$> pcs h' !! 1 = Some [].
Proof. vm_compute. repeat split; reflexivity. Qed.

End GatewayFacts.

(** * Properties of the candidate queue *)

Module ScreenShareFacts.
Import ScreenShare.

Section Queue.

Variable accepts : RTCPeerConnection → Candidate → bool.

Lemma flush_one_effect acc c :
  let r := flush_one accepts acc c in
  (iceCalls (flush_pc r)).*1 = (iceCalls (flush_pc acc)).*1 ++ [c] ∧
  successCount r + failCount r = S (successCount acc + failCount acc) ∧
  remoteDescription (flush_pc r) = remoteDescription (flush_pc acc) ∧
  signalingState (flush_pc r) = signalingState (flush_pc acc).
Proof.
  unfold flush_one, addIceCandidate. simpl.
  destruct (accepts (flush_pc acc) c); simpl; rewrite fmap_app; simpl;
    split_and!; try done; lia.
Qed.

(** The loop of the flush calls [addIceCandidate] once per candidate, in the
    order of the list, whatever the outcome of the earlier calls. *)
Lemma flush_loop cs acc :
  let r := foldl (flush_one accepts) acc cs in
  (iceCalls (flush_pc r)).*1 = (iceCalls (flush_pc acc)).*1 ++ cs ∧
  successCount r + failCount r = successCount acc + failCount acc + length cs ∧
  remoteDescription (flush_pc r) = remoteDescription (flush_pc acc) ∧
  signalingState (flush_pc r) = signalingState (flush_pc acc).
Proof.
  revert acc. induction cs as [|c cs IH]; intros acc; simpl.
  - rewrite app_nil_r. split_and!; try done; lia.
  - destruct (IH (flush_one accepts acc c)) as (H1 & H2 & H3 & H4).
    destruct (flush_one_effect acc c) as (E1 & E2 & E3 & E4).
    rewrite H1, H2, H3, H4, E1, E2, E3, E4, <- app_assoc.
    split_and!; try done; lia.
Qed.

Lemma processIceCandidateQueue_flushes pc queue :
  is_Some (remoteDescription pc) →
  let r := processIceCandidateQueue accepts pc queue in
  r.2 = [] ∧
  (iceCalls (flush_pc r.1)).*1 = (iceCalls pc).*1 ++ queue ∧
  successCount r.1 + failCount r.1 = length queue ∧
  remoteDescription (flush_pc r.1) = remoteDescription pc.
Proof.
  intros [d Hd]. unfold processIceCandidateQueue.
  destruct queue as [|c cs]; simpl.
  - by rewrite app_nil_r.
  - rewrite Hd. simpl.
    destruct (flush_loop cs (flush_one accepts (mkFlush pc 0 0) c)) as (H1 & H2 & H3 & _).
    destruct (flush_one_effect (mkFlush pc 0 0) c) as (E1 & E2 & E3 & _).
    simpl in *. rewrite H1, H2, H3, E1, E2, E3, <- app_assoc.
    split_and!; try done; lia.
Qed.

Lemma processIceCandidateQueue_deferred pc queue :
  remoteDescription pc = None →
  processIceCandidateQueue accepts pc queue = (mkFlush pc 0 0, queue).
Proof. intros Hd. unfold processIceCandidateQueue. destruct queue; by rewrite ?Hd. Qed.

Lemma handleIceCandidate_enqueues pc queue c :
  signalingState pc ≠ closed → remoteDescription pc = None →
  handleIceCandidate accepts (mkPage (Some pc) queue) c = mkPage (Some pc) (queue ++ [c]).
Proof.
  intros Hs Hd. unfold handleIceCandidate. simpl.
  by rewrite bool_decide_eq_false_2, Hd.
Qed.

Lemma createPeerConnection_discards_queue p :
  iceCandidateQueueRef (createPeerConnection p) = [] ∧
  ∃ pc, peerConnectionRef (createPeerConnection p) = Some pc ∧
        remoteDescription pc = None ∧ iceCalls pc = [].
Proof. split; [done|]. by eexists. Qed.

Lemma enqueue_all pc queue cs :
  signalingState pc ≠ closed → remoteDescription pc = None →
  foldl (handleIceCandidate accepts) (mkPage (Some pc) queue) cs
  = mkPage (Some pc) (queue ++ cs).
Proof.
  intros Hs Hd. revert queue. induction cs as [|c cs IH]; intros queue; simpl.
  - by rewrite app_nil_r.
  - rewrite handleIceCandidate_enqueues, IH by done. by rewrite <- app_assoc.
Qed.

(** C2. Candidates that arrive while the connection has no remote description
    are queued in arrival order and none is applied.  Once the answer has set
    the remote description, the flush calls [addIceCandidate] once for each
    queued candidate, in arrival order, whatever the runtime answers to each
    call (a rejected candidate is counted and the loop goes on), and leaves
    the queue empty. *)
Theorem C2_flush_applies_queue_in_order pc cs answer :
  signalingState pc = have_local_offer →
  remoteDescription pc = None →
  let p1 := foldl (handleIceCandidate accepts) (mkPage (Some pc) []) cs in
  let p2 := handleAnswer p1 answer true in
  let p3 := flushTimer accepts p2.1 in
  p1 = mkPage (Some pc) cs ∧
  p2.2 = true ∧
  ∃ pc3 f,
    peerConnectionRef p3 = Some pc3 ∧
    iceCandidateQueueRef p3 = [] ∧
    (iceCalls pc3).*1 = (iceCalls pc).*1 ++ cs ∧
    remoteDescription pc3 = Some answer ∧
    f = (processIceCandidateQueue accepts
           (mkPC stable (Some answer) (iceCalls pc)) cs).1 ∧
    flush_pc f = pc3 ∧
    successCount f + failCount f = length cs.
Proof.
  intros Hs Hd. cbv zeta.
  rewrite enqueue_all by (done || by rewrite Hs). simpl.
  split; [done|].
  unfold handleAnswer. simpl. rewrite Hs. simpl. split; [done|].
  unfold flushTimer. simpl.
  destruct (processIceCandidateQueue_flushes
              (mkPC stable (Some answer) (iceCalls pc)) cs)
    as (Hq & Hcalls & Hcount & Hrd); [by eexists|].
  destruct (processIceCandidateQueue accepts _ cs) as [f q]. simpl in *.
  exists (flush_pc f), f. split_and!; done.
Qed.

End Queue.

(** Three candidates arrive before the answer; the runtime rejects the
    second; all three are attempted in order and the queue ends empty. *)
Lemma C2_flush_applies_queue_in_order_witness :
  let accepts := λ (_ : RTCPeerConnection) (c : Candidate), negb (String.eqb c "c2") in
  let pc := mkPC have_local_offer None [] in
  let p1 := foldl (handleIceCandidate accepts) (mkPage (Some pc) []) ["c1"; "c2"; "c3"] in
  let p3 := flushTimer accepts (handleAnswer p1 (ClientSDP "answer") true).1 in
  p1 = mkPage (Some pc) ["c1"; "c2"; "c3"] ∧
  p3 = mkPage (Some (mkPC stable (Some (ClientSDP "answer"))
                       [("c1", true); ("c2", false); ("c3", true)])) [].
Proof.
  destruct (C2_flush_applies_queue_in_order
              (λ _ c, negb (String.eqb c "c2"))
              (mkPC have_local_offer None []) ["c1"; "c2"; "c3"]
              (ClientSDP "answer") eq_refl eq_refl) as (H1 & _ & _).
  split; [exact H1|reflexivity].
Defined.


(** ** Candidates before the remote description, hub and page *)

Lemma hub_candidate_dropped client cand ok (h : SignalingGateway.Hub) :
  SignalingGateway.wrtc h = true →
  (∀ spc, SignalingGateway.senderPeerConnection h = Some spc →
          SignalingGateway.hasRemoteDescription h spc = false) →
  (∀ r, SignalingGateway.receiverPeerConnections h !! client = Some r →
        SignalingGateway.hasRemoteDescription h r = false) →
  SignalingGateway.handleIceCandidate client cand ok h
  = SignalingGateway.logEv (SignalingGateway.WarnNoPeerConnection client cand) h.
Proof.
  intros Hw Hno Hnr.
  unfold SignalingGateway.handleIceCandidate, SignalingGateway.withRemoteDescription.
  rewrite Hw. simpl.
  destruct (SignalingGateway.senderPeerConnection h) as [spc|];
    rewrite ?(Hno spc eq_refl);
    (destruct (SignalingGateway.receiverPeerConnections h !! client) as [r|];
     [by rewrite (Hnr r eq_refl)|done]).
Qed.

Lemma page_calls_need_remote accepts p cand pc pc' :
  peerConnectionRef p = Some pc →
  peerConnectionRef (handleIceCandidate accepts p cand) = Some pc' →
  iceCalls pc' ≠ iceCalls pc →
  is_Some (remoteDescription pc).
Proof.
  unfold handleIceCandidate. intros Hp. rewrite Hp.
  destruct (bool_decide (signalingState pc = closed)); simpl.
  { rewrite Hp. intros [= ->]. done. }
  destruct (remoteDescription pc) as [d|]; [by eexists|].
  simpl. intros [= ->]. done.
Qed.

Lemma flush_calls_need_remote accepts pc queue :
  iceCalls (flush_pc (processIceCandidateQueue accepts pc queue).1) ≠ iceCalls pc →
  is_Some (remoteDescription pc).
Proof.
  destruct (remoteDescription pc) as [d|] eqn:Hd; [by eexists|].
  by rewrite processIceCandidateQueue_deferred.
Qed.

(** C5 (amended). In every execution of the hub a connection that was given
    a candidate has its remote description set.  The hub keeps no queue: with
    the runtime loaded, an inbound candidate that finds neither the producer
    connection nor the consumer connection of its client with a remote
    description is dropped, the warning being the only trace of it.  On the
    producer page a candidate that arrives while the open connection has no
    remote description is appended to the queue, behind those that arrived
    before it, and is not applied; the page calls [addIceCandidate], from the
    handler or from the flush, only on a connection whose remote description
    is set. *)
Theorem C5_candidates_wait_for_remote_description :
  (∀ w ops r pc,
     SignalingGateway.pcs (SignalingGateway.run (SignalingGateway.init w) ops) !! r
       = Some pc →
     SignalingGateway.candidates_after_remote pc) ∧
  (∀ client cand ok (h : SignalingGateway.Hub),
     SignalingGateway.wrtc h = true →
     (∀ spc, SignalingGateway.senderPeerConnection h = Some spc →
             SignalingGateway.hasRemoteDescription h spc = false) →
     (∀ r, SignalingGateway.receiverPeerConnections h !! client = Some r →
           SignalingGateway.hasRemoteDescription h r = false) →
     SignalingGateway.handleIceCandidate client cand ok h
     = SignalingGateway.logEv (SignalingGateway.WarnNoPeerConnection client cand) h) ∧
  (∀ accepts pc queue cand,
     signalingState pc ≠ closed → remoteDescription pc = None →
     handleIceCandidate accepts (mkPage (Some pc) queue) cand
     = mkPage (Some pc) (queue ++ [cand])) ∧
  (∀ accepts p cand pc pc',
     peerConnectionRef p = Some pc →
     peerConnectionRef (handleIceCandidate accepts p cand) = Some pc' →
     iceCalls pc' ≠ iceCalls pc →
     is_Some (remoteDescription pc)) ∧
  (∀ accepts pc queue,
     iceCalls (flush_pc (processIceCandidateQueue accepts pc queue).1) ≠ iceCalls pc →
     is_Some (remoteDescription pc)).
Proof.
  split_and!.
  - intros w ops r pc Hpc.
    eapply Forall_lookup_1; [apply (GatewayFacts.run_candidates w ops)|done].
  - apply hub_candidate_dropped.
  - apply handleIceCandidate_enqueues.
  - apply page_calls_need_remote.
  - apply flush_calls_need_remote.
Qed.

(** On the hub, a candidate of the producer that arrives before the remote
    description of the producer connection is set; on the page, a candidate
    that arrives before the answer. *)
Lemma C5_candidates_wait_for_remote_description_witness :
  (let h := SignalingGateway.run (SignalingGateway.init true)
              [SignalingGateway.Connection "P";
               SignalingGateway.Offer "P" (ClientSDP "p") true] in
   SignalingGateway.handleIceCandidate "P" "early" true h
   = SignalingGateway.logEv (SignalingGateway.WarnNoPeerConnection "P" "early") h) ∧
  (let pc := mkPC have_local_offer None [] in
   handleIceCandidate (λ _ _, true) (mkPage (Some pc) ["c1"]) "c2"
   = mkPage (Some pc) ["c1"; "c2"]).
Proof.
  split.
  - refine (proj1 (proj2 C5_candidates_wait_for_remote_description)
              "P" "early" true
              (SignalingGateway.run (SignalingGateway.init true)
                 [SignalingGateway.Connection "P";
                  SignalingGateway.Offer "P" (ClientSDP "p") true])
              eq_refl _ _).
    + intros spc [= <-]. reflexivity.
    + intros r Hr. vm_compute in Hr. discriminate.
  - refine (proj1 (proj2 (proj2 C5_candidates_wait_for_remote_description))
              (λ _ _, true) (mkPC have_local_offer None []) ["c1"] "c2" _ eq_refl).
    discriminate.
Defined.

(** The hub does not retain a candidate that arrives before the remote
    description: the producer's early candidate is dropped, and after the
    remote description is set only the later candidate is on the
    connection. *)
Lemma C5_counterexample :
  let h := SignalingGateway.run (SignalingGateway.init true)
             [SignalingGateway.Connection "P";
              SignalingGateway.Offer "P" (ClientSDP "p") true] in
  SignalingGateway.senderPeerConnection h = Some 0 ∧
  SignalingGateway.pc_closed <$> SignalingGateway.pcs h !! 0 = Some false ∧
  SignalingGateway.hasRemoteDescription h 0 = false ∧
  SignalingGateway.step h (SignalingGateway.IceCandidate "P" "early" true)
  = SignalingGateway.logEv (SignalingGateway.WarnNoPeerConnection "P" "early") h ∧
  let h' := SignalingGateway.run h
              [SignalingGateway.IceCandidate "P" "early" true;
               SignalingGateway.Fire 0;
               SignalingGateway.IceCandidate "P" "late" true] in
  SignalingGateway.pc_closed <$> SignalingGateway.pcs h' !! 0 = Some false ∧
  SignalingGateway.hasRemoteDescription h' 0 = true ∧
  SignalingGateway.iceCandidates <$> SignalingGateway.pcs h' !! 0 = Some ["late"].
Proof. vm_compute. repeat split; reflexivity. Qed.

End ScreenShareFacts.
